(** * SP web-scraping client: job tracking, result table and export buttons

    A shallow embedding of the React front end: the components [Dashboard]
    and [ResultsTable] (both in the source file pages/Dashboard.js),
    [ScrapingForm] and [ExportButtons], and the properties that the
    specification states about them.

    The components are event driven.  Pure computations (the table rows,
    the form validation) are functions; a component with state is a record
    of its [useState] cells, its outstanding requests and its timers,
    together with a [step] function that runs one event handler, or one
    continuation of an [await], to completion, as the single-threaded event
    loop does. *)

From stdpp Require Import base strings list numbers gmap pretty.

Open Scope string_scope.
Set Warnings "-register-all".

(** ** JavaScript values *)

Module Js.

(** The values that [JSON.parse] produces, and [undefined].  Numbers are the
    integral ones. *)
Inductive jsval :=
| JUndefined
| JNull
| JBool (b : bool)
| JNum (n : Z)
| JStr (s : string)
| JArr (l : list jsval)
| JObj (o : list (string * jsval)).

(** A plain object: its own enumerable properties, in the order in which
    [Object.entries] lists them.  A well-formed object has no key twice. *)
Abbreviation obj := (list (string * jsval)).

Definition wf_obj (o : obj) : Prop := NoDup o.*1.

(** [ToBoolean]: what [!v], [v && w] and [v || w] test. *)
Definition truthy (v : jsval) : bool :=
  match v with
  | JUndefined | JNull => false
  | JBool b => b
  | JNum n => negb (n =? 0)%Z
  | JStr s => negb (String.eqb s "")
  | JArr _ | JObj _ => true
  end.

(** [a || b] *)
Definition js_or (a b : jsval) : jsval := if truthy a then a else b.

Definition typeof (v : jsval) : string :=
  match v with
  | JUndefined => "undefined"
  | JBool _ => "boolean"
  | JNum _ => "number"
  | JStr _ => "string"
  | JNull | JArr _ | JObj _ => "object"
  end.

(** [values[i]]: the element, or [undefined] past the end. *)
Definition index (l : list jsval) (i : nat) : jsval := default JUndefined (l !! i).

(** Own property lookup. *)
Fixpoint obj_get (o : obj) (k : string) : option jsval :=
  match o with
  | [] => None
  | (k', v) :: o' => if decide (k' = k) then Some v else obj_get o' k
  end.

(** Writing a data property: an existing key keeps its place, a new one goes
    last.  (JavaScript lists the keys that are array indices before the
    others, in ascending order; for such keys the list here holds the same
    entries in the order of their first assignment.) *)
Fixpoint obj_put (o : obj) (k : string) (v : jsval) : obj :=
  match o with
  | [] => [(k, v)]
  | (k', v') :: o' =>
      if decide (k' = k) then (k, v) :: o' else (k', v') :: obj_put o' k v
  end.

(** [o[k] = v] on an object that was created by the literal [{}], as far as
    own properties go.  Such an object inherits the accessor [__proto__] from
    [Object.prototype]: the assignment runs that setter, which changes the
    prototype or does nothing, and no own property appears.  Every other
    key is written as a data property. *)
Definition obj_set (o : obj) (k : string) (v : jsval) : obj :=
  if decide (k = "__proto__") then o else obj_put o k v.

(** The own enumerable string-keyed properties of a value, as
    [Object.keys], [Object.values], [Object.entries] and a rest pattern see
    them: the indices of an array or of a string, nothing for the other
    primitives. *)
Definition chars (s : string) : list jsval :=
  (λ c, JStr (String c EmptyString)) <$> String.list_ascii_of_string s.

Definition own_entries (v : jsval) : obj :=
  match v with
  | JObj o => o
  | JArr l => imap (λ i x, (pretty i, x)) l
  | JStr s => imap (λ i x, (pretty i, x)) (chars s)
  | _ => []
  end.

Definition Object_keys (v : jsval) : list string := (own_entries v).*1.
Definition Object_values (v : jsval) : list jsval := (own_entries v).*2.
Definition Object_entries (v : jsval) : obj := own_entries v.

(** [const { k, ...rest } = o]: the own properties except [k], copied in
    order as data properties. *)
Definition obj_rest (k : string) (o : obj) : obj :=
  filter (λ kv, kv.1 ≠ k) o.

(** The result of [Math.max]: [-Infinity] when it is given no argument. *)
Inductive maxnum := NegInfinity | Finite (n : nat).

Definition Math_max (l : list nat) : maxnum :=
  foldr (λ n acc, match acc with
                  | NegInfinity => Finite n
                  | Finite m => Finite (n `max` m)
                  end) NegInfinity l.

(** The values [i] that [for (let i = 0; i < bound; i++)] runs through. *)
Definition upto (bound : maxnum) : list nat :=
  match bound with
  | NegInfinity => []
  | Finite n => seq 0 n
  end.

End Js.

(** ** components/ResultsTable.js *)

Module ResultsTable.
Import Js.

(** The value stored in [row[key]] for row [i]: [values[i] || ''] when
    [Array.isArray(values)], else [i === 0 ? values : '']. *)
Definition cell (values : jsval) (i : nat) : jsval :=
  match values with
  | JArr l => js_or (index l i) (JStr "")
  | _ => if decide (i = 0) then values else JStr ""
  end.

(** The body of the loop: a fresh [row], filled by the [forEach] over the
    entries. *)
Definition make_row (scrapedData : obj) (i : nat) : obj :=
  foldl (λ row kv, obj_set row kv.1 (cell kv.2 i)) [] (Object_entries (JObj scrapedData)).

(** [Math.max] of [values.length] for an array and 1 for anything else. *)
Definition maxLength (scrapedData : obj) : maxnum :=
  Math_max ((λ values, match values with
                       | JArr l => length l
                       | _ => 1
                       end) <$> Object_values (JObj scrapedData)).

(** [tableData]: the memoised row computation. *)
Definition tableData (data : jsval) : list obj :=
  if negb (truthy data) || negb (String.eqb (typeof data) "object") then []
  else
    let scrapedData := obj_rest "_metadata" (own_entries data) in
    make_row scrapedData <$> upto (maxLength scrapedData).

(** [columns]: one column per key of the first row, named by its
    [accessor]. *)
Definition columns (rows : list obj) : list string :=
  match rows with
  | [] => []
  | row :: _ => Object_keys (JObj row)
  end.

(** What the component returns: one of its two messages, or the table
    element built from the rows and columns it hands to [useTable].  What
    React does with the cells of that element afterwards (it refuses an
    object as a child) is not part of the component function. *)
Inductive view :=
| Message (text : string)
| Table (cols : list string) (rows : list obj).

Definition render (data : jsval) : view :=
  if negb (truthy data) || (length (Object_keys data) =? 0)%nat then
    Message "No data available"
  else if (length (tableData data) =? 0)%nat then
    Message "No data found with the specified selectors"
  else Table (columns (tableData data)) (tableData data).

(** *** The vocabulary of the specification *)

(** The fields that remain once the metadata entry is excluded. *)
Definition fields (data : obj) : obj := obj_rest "_metadata" data.

(** The length of a sequence, 1 for a scalar; [width] is the maximum over
    the remaining fields, 0 when there is none. *)
Definition extent (values : jsval) : nat :=
  match values with
  | JArr l => length l
  | _ => 1
  end.

Definition width (data : obj) : nat := max_list_with extent (fields data).*2.

(** The value of a field in row [i] as the specification words it: the
    element at index [i] if present, else the empty string; a scalar in row
    0 only. *)
Definition stated_cell (values : jsval) (i : nat) : jsval :=
  match values with
  | JArr l => match l !! i with
              | Some e => e
              | None => JStr ""
              end
  | _ => if decide (i = 0) then values else JStr ""
  end.

End ResultsTable.

(** ** Notifications ([react-hot-toast]) *)

Inductive toast :=
| toast_success (msg : Js.jsval)
| toast_error (msg : Js.jsval).

(** ** components/ScrapingForm.js *)

Module ScrapingForm.
Import Js.

Record selector_row := { field : string; selector : string }.

Record formData := {
  url : string;
  use_selenium : bool;
  selectors : list selector_row
}.

(** The argument of [onSubmit]. *)
Record scrapeData := {
  sd_url : string;
  sd_use_selenium : bool;
  sd_selectors : obj
}.

Inductive submitted :=
| alert (msg : string)
| onSubmit (d : scrapeData).

(** The [forEach] that converts the selector rows to an object. *)
Definition selectorsObj (rows : list selector_row) : obj :=
  foldl (λ o sel,
           if truthy (JStr (field sel)) && truthy (JStr (selector sel))
           then obj_set o (field sel) (JStr (selector sel))
           else o) [] rows.

Definition handleSubmit (f : formData) : submitted :=
  if negb (truthy (JStr (url f))) then alert "Please enter a URL"
  else if (length (selectors f) =? 0)%nat then
    alert "Please add at least one selector"
  else if (length (Object_keys (JObj (selectorsObj (selectors f)))) =? 0)%nat then
    alert "Please add valid selectors"
  else onSubmit {| sd_url := url f;
                   sd_use_selenium := use_selenium f;
                   sd_selectors := selectorsObj (selectors f) |}.

(** A row that gets into the object. *)
Definition usable p : Prop :=
  field p ≠ "" ∧ selector p ≠ "" ∧ field p ≠ "__proto__".

(** One round of the [forEach]. *)
Definition add_row o p : obj :=
  if truthy (JStr (field p)) && truthy (JStr (selector p))
  then obj_set o (field p) (JStr (selector p)) else o.

(** *** Editing the form *)

(** The state that [useState] starts with. *)
Definition initialForm : formData :=
  {| url := "";
     use_selenium := false;
     selectors := [ {| field := "title"; selector := "h1, h2, h3" |};
                    {| field := "links"; selector := "a[href]" |} ] |}.

(** The target of a change event: the text input named [url] with its
    [value], or the checkbox named [use_selenium] with its [checked]. *)
Inductive input :=
| url_input (value : string)
| use_selenium_input (checked : bool).

(** [handleChange]: the cell named by the input takes [checked] for the
    checkbox and [value] otherwise. *)
Definition handleChange (e : input) (f : formData) : formData :=
  match e with
  | url_input value =>
      {| url := value; use_selenium := use_selenium f;
         selectors := selectors f |}
  | use_selenium_input checked =>
      {| url := url f; use_selenium := checked; selectors := selectors f |}
  end.

(** The two inputs of a selector row pass ['field'] and ['selector']. *)
Inductive part := field_part | selector_part.

Definition set_part (p : part) (value : string) (sel : selector_row)
    : selector_row :=
  match p with
  | field_part => {| field := value; selector := selector sel |}
  | selector_part => {| field := field sel; selector := value |}
  end.

(** [handleSelectorChange]: the [map] with [i === index]. *)
Definition handleSelectorChange (index : nat) (p : part) (value : string)
    (f : formData) : formData :=
  {| url := url f; use_selenium := use_selenium f;
     selectors := imap (λ i sel, if decide (i = index)
                                 then set_part p value sel else sel)
                       (selectors f) |}.

Definition addSelector (f : formData) : formData :=
  {| url := url f; use_selenium := use_selenium f;
     selectors := selectors f ++ [ {| field := ""; selector := "" |} ] |}.

(** [removeSelector]: the [filter] with [i !== index]. *)
Definition removeSelector (index : nat) (f : formData) : formData :=
  {| url := url f; use_selenium := use_selenium f;
     selectors := (filter (λ ix, ix.1 ≠ index)
                     (imap (λ i sel, (i, sel)) (selectors f))).*2 |}.

(** What the user can do to the form before submitting it.  The inputs and
    the remove button of row [index] exist when the row does, and the
    remove buttons are disabled while there is exactly one row. *)
Inductive edit :=
| Change (e : input)
| SelectorChange (index : nat) (p : part) (value : string)
| AddSelector
| RemoveSelector (index : nat).

Definition edit_step (f : formData) (e : edit) : option formData :=
  match e with
  | Change e => Some (handleChange e f)
  | SelectorChange index p value =>
      guard (index < length (selectors f));;
      Some (handleSelectorChange index p value f)
  | AddSelector => Some (addSelector f)
  | RemoveSelector index =>
      guard (index < length (selectors f));;
      guard (length (selectors f) ≠ 1);;
      Some (removeSelector index f)
  end.

Fixpoint edits (f : formData) (es : list edit) : option formData :=
  match es with
  | [] => Some f
  | e :: es' => f' ← edit_step f e; edits f' es'
  end.

End ScrapingForm.

(** ** components/ExportButtons.js *)

Module ExportButtons.
Import Js.

(** The [format] of the four [exportOptions]; no button passes another
    string, so the [default:] branch of the [switch] is never taken. *)
Inductive format := csv | json | pdf | excel.

Global Instance format_eq_dec : EqDecision format.
Proof. solve_decision. Defined.

Definition filename (f : format) : string :=
  match f with
  | csv => "scraped_data.csv"
  | json => "scraped_data.json"
  | pdf => "scraped_data.pdf"
  | excel => "scraped_data.xlsx"
  end.

(** [format.toUpperCase()] *)
Definition upper (f : format) : string :=
  match f with
  | csv => "CSV"
  | json => "JSON"
  | pdf => "PDF"
  | excel => "EXCEL"
  end.

(** One mounted component: the [exporting] cell, the export requests that
    have not settled yet (each for the [jobId] and format it was issued
    with), the files handed to the browser and the notifications. *)
Record state := {
  exporting : option format;
  requests : list (Z * format);
  downloads : list string;
  toasts : list toast
}.

Definition init : state :=
  {| exporting := None; requests := []; downloads := []; toasts := [] |}.

Inductive event :=
| Click (f : format)
| Resolved (k : nat) (ok : bool).

(** The button of [f] carries [disabled={exporting === format}]. *)
Definition disabled (s : state) (f : format) : bool :=
  bool_decide (exporting s = Some f).

(** [handleExport] up to its [await]. *)
Definition handleExport (jobId : Z) (f : format) (s : state) : state :=
  {| exporting := Some f;
     requests := requests s ++ [(jobId, f)];
     downloads := downloads s;
     toasts := toasts s |}.

(** [handleExport] from its [await] on: the download or the [catch], then
    the [finally]. *)
Definition settle (f : format) (ok : bool) (s : state) : state :=
  {| exporting := None;
     requests := requests s;
     downloads := if ok then downloads s ++ [filename f] else downloads s;
     toasts := toasts s ++
       [if ok then toast_success (JStr ("Data exported as " ++ upper f))
        else toast_error (JStr ("Failed to export as " ++ upper f))] |}.

(** One event of the component rendered with the prop [jobId]: a click on an
    enabled button, or the [k]-th outstanding request settling.  [None]: the
    event cannot happen in [s]. *)
Definition step (jobId : Z) (s : state) (e : event) : option state :=
  match e with
  | Click f =>
      guard (disabled s f = false);;
      Some (handleExport jobId f s)
  | Resolved k ok =>
      '(_, f) ← requests s !! k;
      Some (settle f ok {| exporting := exporting s;
                           requests := delete k (requests s);
                           downloads := downloads s;
                           toasts := toasts s |})
  end.

Fixpoint run (jobId : Z) (s : state) (es : list event) : option state :=
  match es with
  | [] => Some s
  | e :: es' => s' ← step jobId s e; run jobId s' es'
  end.

(** The requests for [(jobId, f)] that are in flight. *)
Definition in_flight (jobId : Z) (f : format) (s : state) : nat :=
  length (filter (λ r, r = (jobId, f)) (requests s)).

(** The accepted clicks and the requests that succeeded among the events
    of a run. *)
Definition is_click (e : event) : bool :=
  match e with
  | Click _ => true
  | Resolved _ _ => false
  end.

Definition is_success (e : event) : bool :=
  match e with
  | Click _ => false
  | Resolved _ ok => ok
  end.

End ExportButtons.

(** ** pages/Dashboard.js *)

Module Dashboard.
Import Js ScrapingForm.

(** A job as the service returns it. *)
Record job := {
  id : Z;
  job_url : string;
  status : string;
  result_data : jsval;
  error_message : string
}.

(** What a timer runs.  Both closures of [pollJobStatus] capture
    [pollInterval], the handle that [setInterval] returned; the first also
    captures [jobId]. *)
Inductive callback :=
| poll_tick (jobId : Z) (pollInterval : nat)
| poll_stop (pollInterval : nat).

(** An entry of the window's table of active timers: when it is due next,
    its period when it repeats, and its callback. *)
Record timer := {
  due : Z;
  every : option Z;
  callback_of : callback
}.

(** The component: its three [useState] cells; the clock (in ms), the timer
    table and the next free timer handle; the requests that have not settled
    yet ([createScrapeJob] with its argument, [getScrapeResult] with the
    [pollInterval] and [jobId] of the tick that issued it,
    [deleteScrapeJob] with its [jobId] and the [currentJob] of the render
    whose handler issued it); the notifications and the alerts shown. *)
Record state := {
  scrapeJobs : list job;
  currentJob : option job;
  loading : bool;
  now : Z;
  next_handle : nat;
  timers : gmap nat timer;
  creating : list scrapeData;
  fetching : list (nat * Z);
  deleting : list (Z * option job);
  toasts : list toast;
  alerts : list string
}.

Definition init : state :=
  {| scrapeJobs := []; currentJob := None; loading := false;
     now := 0; next_handle := 1; timers := ∅;
     creating := []; fetching := []; deleting := [];
     toasts := []; alerts := [] |}.

(** Field updates. *)
Definition setScrapeJobs (f : list job → list job) (s : state) : state :=
  {| scrapeJobs := f (scrapeJobs s); currentJob := currentJob s;
     loading := loading s; now := now s; next_handle := next_handle s;
     timers := timers s; creating := creating s; fetching := fetching s;
     deleting := deleting s; toasts := toasts s; alerts := alerts s |}.

Definition setCurrentJob (j : option job) (s : state) : state :=
  {| scrapeJobs := scrapeJobs s; currentJob := j;
     loading := loading s; now := now s; next_handle := next_handle s;
     timers := timers s; creating := creating s; fetching := fetching s;
     deleting := deleting s; toasts := toasts s; alerts := alerts s |}.

Definition setLoading (b : bool) (s : state) : state :=
  {| scrapeJobs := scrapeJobs s; currentJob := currentJob s;
     loading := b; now := now s; next_handle := next_handle s;
     timers := timers s; creating := creating s; fetching := fetching s;
     deleting := deleting s; toasts := toasts s; alerts := alerts s |}.

Definition set_now (t : Z) (s : state) : state :=
  {| scrapeJobs := scrapeJobs s; currentJob := currentJob s;
     loading := loading s; now := t; next_handle := next_handle s;
     timers := timers s; creating := creating s; fetching := fetching s;
     deleting := deleting s; toasts := toasts s; alerts := alerts s |}.

Definition set_timers (h : nat) (m : gmap nat timer) (s : state) : state :=
  {| scrapeJobs := scrapeJobs s; currentJob := currentJob s;
     loading := loading s; now := now s; next_handle := h;
     timers := m; creating := creating s; fetching := fetching s;
     deleting := deleting s; toasts := toasts s; alerts := alerts s |}.

Definition set_creating (l : list scrapeData) (s : state) : state :=
  {| scrapeJobs := scrapeJobs s; currentJob := currentJob s;
     loading := loading s; now := now s; next_handle := next_handle s;
     timers := timers s; creating := l; fetching := fetching s;
     deleting := deleting s; toasts := toasts s; alerts := alerts s |}.

Definition set_fetching (l : list (nat * Z)) (s : state) : state :=
  {| scrapeJobs := scrapeJobs s; currentJob := currentJob s;
     loading := loading s; now := now s; next_handle := next_handle s;
     timers := timers s; creating := creating s; fetching := l;
     deleting := deleting s; toasts := toasts s; alerts := alerts s |}.

Definition set_deleting (l : list (Z * option job)) (s : state) : state :=
  {| scrapeJobs := scrapeJobs s; currentJob := currentJob s;
     loading := loading s; now := now s; next_handle := next_handle s;
     timers := timers s; creating := creating s; fetching := fetching s;
     deleting := l; toasts := toasts s; alerts := alerts s |}.

Definition toast_show (t : toast) (s : state) : state :=
  {| scrapeJobs := scrapeJobs s; currentJob := currentJob s;
     loading := loading s; now := now s; next_handle := next_handle s;
     timers := timers s; creating := creating s; fetching := fetching s;
     deleting := deleting s; toasts := toasts s ++ [t]; alerts := alerts s |}.

Definition alert_show (msg : string) (s : state) : state :=
  {| scrapeJobs := scrapeJobs s; currentJob := currentJob s;
     loading := loading s; now := now s; next_handle := next_handle s;
     timers := timers s; creating := creating s; fetching := fetching s;
     deleting := deleting s; toasts := toasts s; alerts := alerts s ++ [msg] |}.

(** *** Timers *)

(** [setInterval(cb, ms)] and [setTimeout(cb, ms)] enter the callback in the
    table under the next handle and return that handle; the callback of
    [setInterval] is built from the handle it is given. *)
Definition setInterval (cb : nat → callback) (ms : Z) (s : state) : state :=
  let h := next_handle s in
  set_timers (S h)
    (<[h := {| due := now s + ms; every := Some ms; callback_of := cb h |}]>
       (timers s)) s.

Definition setTimeout (cb : callback) (ms : Z) (s : state) : state :=
  let h := next_handle s in
  set_timers (S h)
    (<[h := {| due := now s + ms; every := None; callback_of := cb |}]>
       (timers s)) s.

(** [clearInterval(h)] removes the entry of [h]; nothing happens when there
    is none. *)
Definition clearInterval (h : nat) (s : state) : state :=
  set_timers (next_handle s) (delete h (timers s)) s.

(** *** Handlers *)

(** [pollJobStatus(jobId)] *)
Definition pollJobStatus (jobId : Z) (s : state) : state :=
  let pollInterval := next_handle s in
  setTimeout (poll_stop pollInterval) 300000
    (setInterval (poll_tick jobId) 2000 s).

(** The interval's callback up to its [await]: the status request goes
    out. *)
Definition poll_request (jobId : Z) (pollInterval : nat) (s : state) : state :=
  set_fetching (fetching s ++ [(pollInterval, jobId)]) s.

(** The interval's callback after the [await]: [Some j] is the job of the
    response, [None] a rejected request. *)
Definition poll_response (jobId : Z) (pollInterval : nat) (r : option job)
    (s : state) : state :=
  match r with
  | Some j =>
      let s1 := setScrapeJobs
                  (fmap (λ x, if decide (id x = jobId) then j else x)) s in
      if String.eqb (status j) "completed" || String.eqb (status j) "failed"
      then
        let s2 := clearInterval pollInterval s1 in
        if String.eqb (status j) "completed" then
          toast_show (toast_success (JStr "Scraping completed!"))
            (setCurrentJob (Some j) s2)
        else
          toast_show
            (toast_error (JStr ("Scraping failed: " ++ error_message j))) s2
      else s1
  | None =>
      toast_show (toast_error (JStr "Error checking job status"))
        (clearInterval pollInterval s)
  end.

(** [handleScrape] up to its [await]. *)
Definition handleScrape (d : scrapeData) (s : state) : state :=
  set_creating (creating s ++ [d]) (setLoading true s).

(** [handleScrape] after the [await]: [inl j] is the job of the response,
    [inr detail] a rejected request with [error.response?.data?.detail]. *)
Definition handleScrape_response (r : job + jsval) (s : state) : state :=
  setLoading false
    match r with
    | inl j =>
        toast_show (toast_success (JStr "Scraping job started!"))
          (pollJobStatus (id j)
             (setCurrentJob (Some j) (setScrapeJobs (cons j) s)))
    | inr detail =>
        toast_show
          (toast_error (js_or detail (JStr "Failed to start scraping job"))) s
    end.

(** [deleteJob] after its [await]; [cur] is the [currentJob] of the render
    whose handler was called. *)
Definition deleteJob_response (jobId : Z) (cur : option job) (ok : bool)
    (s : state) : state :=
  if ok then
    let s1 := setScrapeJobs (filter (λ j, id j ≠ jobId)) s in
    let s2 := match cur with
              | Some c => if decide (id c = jobId) then setCurrentJob None s1
                          else s1
              | None => s1
              end in
    toast_show (toast_success (JStr "Job deleted successfully")) s2
  else toast_show (toast_error (JStr "Failed to delete job")) s.

(** *** Events *)

Inductive event :=
| Submit (f : formData)
| CreateResolved (k : nat) (r : job + jsval)
| Fire (h : nat)
| FetchResolved (k : nat) (r : option job)
| Elapse (dt : Z)
| View (k : nat)
| Delete (k : nat)
| DeleteResolved (k : nat) (ok : bool).

(** Running the callback of a timer. *)
Definition invoke (cb : callback) (s : state) : state :=
  match cb with
  | poll_tick jobId pollInterval => poll_request jobId pollInterval s
  | poll_stop pollInterval => clearInterval pollInterval s
  end.

(** One turn of the event loop; [None] when the event cannot happen in [s].
    - [Submit f]: the form is submitted with the content [f]; its button is
      disabled while [loading].
    - [CreateResolved k r], [FetchResolved k r], [DeleteResolved k ok]: the
      [k]-th outstanding request of its kind settles.
    - [Fire h]: the timer [h] runs.  A timer runs when the clock reaches
      its due time; a repeating one is entered again one period later, any
      other leaves the table.
    - [Elapse dt]: the clock advances, not beyond a due time.
    - [View k], [Delete k]: the buttons of the [k]-th of the five jobs
      listed. *)
Definition step (s : state) (e : event) : option state :=
  match e with
  | Submit f =>
      guard (loading s = false);;
      Some match handleSubmit f with
           | alert msg => alert_show msg s
           | onSubmit d => handleScrape d s
           end
  | CreateResolved k r =>
      _ ← creating s !! k;
      Some (handleScrape_response r (set_creating (delete k (creating s)) s))
  | Fire h =>
      t ← timers s !! h;
      guard (due t = now s);;
      let table := match every t with
                   | Some ms => <[h := {| due := due t + ms; every := Some ms;
                                          callback_of := callback_of t |}]>
                                  (timers s)
                   | None => delete h (timers s)
                   end in
      Some (invoke (callback_of t) (set_timers (next_handle s) table s))
  | FetchResolved k r =>
      '(pollInterval, jobId) ← fetching s !! k;
      Some (poll_response jobId pollInterval r
              (set_fetching (delete k (fetching s)) s))
  | Elapse dt =>
      guard (0 ≤ dt)%Z;;
      guard (map_Forall (λ _ t, (now s + dt ≤ due t)%Z) (timers s));;
      Some (set_now (now s + dt) s)
  | View k =>
      j ← take 5 (scrapeJobs s) !! k;
      Some (setCurrentJob (Some j) s)
  | Delete k =>
      j ← take 5 (scrapeJobs s) !! k;
      Some (set_deleting (deleting s ++ [(id j, currentJob s)]) s)
  | DeleteResolved k ok =>
      '(jobId, cur) ← deleting s !! k;
      Some (deleteJob_response jobId cur ok
              (set_deleting (delete k (deleting s)) s))
  end.

Fixpoint run (s : state) (es : list event) : option state :=
  match es with
  | [] => Some s
  | e :: es' => s' ← step s e; run s' es'
  end.

(** The polling loops of a job: the repeating timers that fetch its
    status. *)
Definition polls (jobId : Z) (t : timer) : Prop :=
  ∃ h, callback_of t = poll_tick jobId h.

Global Instance polls_dec jobId t : Decision (polls jobId t).
Proof.
  unfold polls. destruct (callback_of t) as [j h|h].
  - destruct (decide (j = jobId)) as [->|Hne].
    + left. by exists h.
    + right. intros [h' Heq]. congruence.
  - right. intros [h' Heq]. congruence.
Defined.

Definition active_loops (jobId : Z) (s : state) : nat :=
  size (filter (λ ht, polls jobId ht.2) (timers s)).

(** The loop that [setInterval] started under the handle [h] is still in
    the timer table. *)
Definition polling (h : nat) (s : state) : Prop := is_Some (timers s !! h).

(** The handle that a callback passes to [clearInterval], at once or after
    its request has settled. *)
Definition target (cb : callback) : nat :=
  match cb with
  | poll_tick _ pollInterval => pollInterval
  | poll_stop pollInterval => pollInterval
  end.

(** Handles are handed out in increasing order: every handle in use, in the
    table or held by a callback or by the continuation of a request, is
    below the next free one. *)
Definition wf (s : state) : Prop :=
  map_Forall (λ h t, h < next_handle s ∧ target (callback_of t) < next_handle s)
    (timers s) ∧
  Forall (λ p, p.1 < next_handle s) (fetching s).

Global Instance wf_dec s : Decision (wf s).
Proof. unfold wf. apply _. Defined.

(** The timer that [pollJobStatus] enters under the handle [S h], next to
    the loop [h], when the clock shows [D - 300000]. *)
Definition stop_timer (h : nat) (D : Z) : timer :=
  {| due := D; every := None; callback_of := poll_stop h |}.

(** The loop [h] is guarded by its stop timer: no callback and no
    continuation clears the handle [S h], and either the stop timer is in
    the table and the clock has not passed [D], or the stop timer and the
    loop have both left the table. *)
Definition guarded (h : nat) (D : Z) (s : state) : Prop :=
  S h < next_handle s ∧
  map_Forall (λ _ t, target (callback_of t) ≠ S h) (timers s) ∧
  Forall (λ p, p.1 ≠ S h) (fetching s) ∧
  ((timers s !! S h = Some (stop_timer h D) ∧ (now s ≤ D)%Z) ∨
   (timers s !! S h = None ∧ timers s !! h = None)).

(** A job that stays pending: the request of every tick is answered with
    the job in the status [pending]. *)
Definition pending_job : job :=
  {| id := 7; job_url := "https://example.com"; status := "pending";
     result_data := JNull; error_message := "" |}.

Definition pending_ticks (n : nat) : list event :=
  mjoin (replicate n [Elapse 2000; Fire 1; FetchResolved 0 (Some pending_job)]).

(** Either nothing is being created and the form is enabled, or exactly one
    creation request is outstanding and the form is disabled. *)
Definition submitting (s : state) : Prop :=
  (loading s = false ∧ creating s = []) ∨
  (loading s = true ∧ length (creating s) = 1).

(** The runs of the timer [h] among the events of a run. *)
Definition is_fire (h : nat) (e : event) : bool :=
  match e with
  | Fire h' => bool_decide (h' = h)
  | _ => false
  end.

Definition ticks (h : nat) (es : list event) : nat :=
  length (filter (λ e, is_fire h e) es).

(** The entry of the loop [h] for [jobId], entered when the clock showed
    [t0], after it has run [n] times. *)
Definition tick_timer (jobId : Z) (h : nat) (t0 : Z) (n : nat) : timer :=
  {| due := t0 + 2000 * (Z.of_nat n + 1);
     every := Some 2000%Z;
     callback_of := poll_tick jobId h |}.

(** The loop [h] for [jobId], started when the clock showed [t0], has run
    [n] times: it is guarded by its stop timer, [n] is at most 150, and its
    entry, if it is still in the table, is due for run [n + 1]. *)
Definition scheduled (jobId : Z) (h : nat) (t0 : Z) (n : nat) (s : state)
    : Prop :=
  guarded h (t0 + 300000) s ∧ (n ≤ 150)%nat ∧
  (timers s !! h = None ∨ timers s !! h = Some (tick_timer jobId h t0 n)).

End Dashboard.

(** ** The history page: filters and pagination *)

Module History.

(** The [filters] cell. *)
Record filters := {
  page : Z;
  per_page : Z;
  status_filter : string;
  days : string
}.

(** What the pagination reads of the response stored in [jobs]. *)
Record listing := {
  total : Z;
  total_pages : Z
}.

(** The cells [filters], [jobs] and [loading]; no handler of the page
    writes them from the other cells ([stats], [selectedJob]).  [jobs]
    starts as the empty array, which has neither [total] nor [total_pages]:
    that is [None]. *)
Record state := {
  current : filters;
  jobs : option listing;
  loading : bool
}.

Definition init : state :=
  {| current := {| page := 1; per_page := 10; status_filter := ""; days := "" |};
     jobs := None;
     loading := true |}.

(** The two selects pass ['status_filter'] and ['days']. *)
Inductive filter_key := status_filter_key | days_key.

(** [handleFilterChange]: the key takes the value and the page is 1
    again. *)
Definition handleFilterChange (key : filter_key) (value : string)
    (f : filters) : filters :=
  match key with
  | status_filter_key =>
      {| page := 1; per_page := per_page f; status_filter := value;
         days := days f |}
  | days_key =>
      {| page := 1; per_page := per_page f;
         status_filter := status_filter f; days := value |}
  end.

Definition handlePageChange (newPage : Z) (f : filters) : filters :=
  {| page := newPage; per_page := per_page f;
     status_filter := status_filter f; days := days f |}.

(** The pagination is rendered when [jobs.total_pages > 1]. *)
Definition paginated (s : state) : bool :=
  match jobs s with
  | Some l => bool_decide (1 < total_pages l)%Z
  | None => false
  end.

(** The two numbers of "Showing ... to ... of ... results". *)
Definition showing_from (f : filters) : Z := (page f - 1) * per_page f + 1.

Definition showing_to (f : filters) (l : listing) : Z :=
  Z.min (page f * per_page f) (total l).

Inductive event :=
| HistorySettled (r : option listing)
| FilterChange (key : filter_key) (value : string)
| Previous
| Next.

(** One event; [None] when it cannot happen.
    - [HistorySettled r]: a [getHistory] request settles, with the listing
      or with an error.  The page issues one when it is mounted, after
      every change of [filters], and from [deleteJob] and [clearHistory];
      here one may settle at any time.
    - [FilterChange]: one of the selects changes.
    - [Previous], [Next]: the two buttons; the first is disabled on page 1,
      the second on the page [jobs.total_pages].
    While [loading], the page is a spinner without controls. *)
Definition step (s : state) (e : event) : option state :=
  match e with
  | HistorySettled r =>
      Some {| current := current s;
              jobs := match r with
                      | Some l => Some l
                      | None => jobs s
                      end;
              loading := false |}
  | FilterChange key value =>
      guard (loading s = false);;
      Some {| current := handleFilterChange key value (current s);
              jobs := jobs s; loading := loading s |}
  | Previous =>
      guard (loading s = false);;
      guard (paginated s = true);;
      guard (page (current s) ≠ 1%Z);;
      Some {| current := handlePageChange (page (current s) - 1)%Z (current s);
              jobs := jobs s; loading := loading s |}
  | Next =>
      guard (loading s = false);;
      guard (paginated s = true);;
      guard (Some (page (current s)) ≠ total_pages <$> jobs s);;
      Some {| current := handlePageChange (page (current s) + 1)%Z (current s);
              jobs := jobs s; loading := loading s |}
  end.

Fixpoint run (s : state) (es : list event) : option state :=
  match es with
  | [] => Some s
  | e :: es' => s' ← step s e; run s' es'
  end.

End History.

(** ** services/api.js: the two interceptors *)

Module Api.

(** The part of the browser that the interceptors touch: [localStorage] and
    [window.location.href]. *)
Record browser := {
  localStorage : gmap string string;
  location : string
}.

(** The request interceptor, on the headers of the request: a stored token
    that is not empty is sent as a bearer credential. *)
Definition on_request (b : browser) (headers : gmap string string)
    : gmap string string :=
  match localStorage b !! "token" with
  | Some token =>
      if Js.truthy (Js.JStr token)
      then <["Authorization" := "Bearer " ++ token]> headers
      else headers
  | None => headers
  end.

(** The response interceptor for a rejected request; [status] is
    [error.response?.status], absent when there was no response.  The error
    is passed on in every case. *)
Definition on_error (status : option Z) (b : browser) : browser :=
  if decide (status = Some 401%Z)
  then {| localStorage := delete "token" (localStorage b);
          location := "/login" |}
  else b.

End Api.

(** * Properties *)

(** ** Plain objects *)

Section objects.
Import Js.
Implicit Types (o : obj) (k : string) (v : jsval).

Lemma obj_get_None o k : obj_get o k = None ↔ k ∉ o.*1.
Proof.
  induction o as [|[k' v'] o IH]; simpl.
  - split; [intros _; apply not_elem_of_nil | done].
  - case_decide as Hk; subst.
    + split; [done | intros Hn; destruct Hn; left].
    + rewrite IH, not_elem_of_cons.
      split; [intros ?; split; [congruence | done] | by intros [_ ?]].
Qed.

Lemma obj_get_Some o k v : obj_get o k = Some v → (k, v) ∈ o.
Proof.
  induction o as [|[k' v'] o IH]; simpl; [done|].
  case_decide; subst.
  - intros [= ->]. left.
  - intros Hg. right. by apply IH.
Qed.

Lemma obj_get_put o k v k' :
  obj_get (obj_put o k v) k' = if decide (k = k') then Some v else obj_get o k'.
Proof.
  induction o as [|[k0 v0] o IH]; simpl.
  - done.
  - destruct (decide (k0 = k)) as [->|Hne]; simpl.
    + by repeat case_decide.
    + rewrite IH. repeat case_decide; congruence.
Qed.

Lemma obj_get_set o k v k' :
  obj_get (obj_set o k v) k' =
    if decide (k = "__proto__") then obj_get o k'
    else if decide (k = k') then Some v else obj_get o k'.
Proof. unfold obj_set. case_decide; [done | apply obj_get_put]. Qed.

Lemma keys_put o k v k' : k' ∈ (obj_put o k v).*1 ↔ k' = k ∨ k' ∈ o.*1.
Proof.
  induction o as [|[k0 v0] o IH]; simpl.
  - rewrite list_elem_of_singleton, elem_of_nil. tauto.
  - case_decide; subst; simpl; rewrite !elem_of_cons; [|rewrite IH]; tauto.
Qed.

Lemma keys_set o k v k' :
  k' ∈ (obj_set o k v).*1 ↔ (k ≠ "__proto__" ∧ k' = k) ∨ k' ∈ o.*1.
Proof. unfold obj_set. case_decide; [|rewrite keys_put]; tauto. Qed.

Lemma wf_obj_rest o k : wf_obj o → wf_obj (obj_rest k o).
Proof.
  unfold wf_obj, obj_rest. intros Hnd.
  eapply sublist_NoDup; [exact Hnd | apply fmap_sublist, sublist_filter].
Qed.

Lemma obj_get_rest o k k' :
  obj_get (obj_rest k o) k' = if decide (k' = k) then None else obj_get o k'.
Proof.
  unfold obj_rest. induction o as [|[k0 v0] o IH]; simpl.
  - by case_decide.
  - rewrite filter_cons; simpl. repeat case_decide; simpl; subst;
      repeat case_decide; try congruence; done.
Qed.

End objects.

(** ** The result table *)

Section normalizer.
Import Js ResultsTable.
Implicit Types (data sd row : obj) (k key : string) (v values : jsval) (i : nat).

Lemma Math_max_max_list (l : list nat) :
  upto (Math_max l) = seq 0 (max_list l).
Proof.
  assert (Math_max l = match l with
                       | [] => NegInfinity
                       | _ => Finite (max_list l)
                       end) as ->.
  { induction l as [|n l IH]; [done|].
    change (Math_max (n :: l)) with
      (match Math_max l with
       | NegInfinity => Finite n
       | Finite m => Finite (n `max` m)
       end).
    rewrite IH. destruct l; simpl; [by rewrite Nat.max_0_r | done]. }
  by destruct l.
Qed.

(** The loop bound of the code is the [width] of the specification. *)
Lemma upto_maxLength data : upto (maxLength (fields data)) = seq 0 (width data).
Proof.
  unfold maxLength, width, Object_values, own_entries.
  rewrite Math_max_max_list. f_equal.
  induction (fields data).*2 as [|v l IH]; [done|].
  cbn [fmap list_fmap max_list_with]. by rewrite IH.
Qed.

Lemma tableData_rows data :
  tableData (JObj data) = make_row (fields data) <$> seq 0 (width data).
Proof. unfold tableData; simpl. fold (fields data). by rewrite upto_maxLength. Qed.

Lemma tableData_length data : length (tableData (JObj data)) = width data.
Proof. by rewrite tableData_rows, length_fmap, length_seq. Qed.

Lemma tableData_lookup data i :
  i < width data → tableData (JObj data) !! i = Some (make_row (fields data) i).
Proof.
  intros Hi. rewrite tableData_rows, list_lookup_fmap, lookup_seq_lt by done.
  done.
Qed.

(** What the [forEach] leaves under a key, started from any [row]. *)
Lemma fill_get (entries : obj) i row k :
  NoDup entries.*1 → k ≠ "__proto__" →
  obj_get (foldl (λ row kv, obj_set row kv.1 (cell kv.2 i)) row entries) k =
    match obj_get entries k with
    | Some v => Some (cell v i)
    | None => obj_get row k
    end.
Proof.
  intros Hnd Hk. revert row.
  induction entries as [|[k0 v0] entries IH]; intros row; simpl; [done|].
  rewrite fmap_cons in Hnd. simpl in Hnd.
  apply NoDup_cons in Hnd as [Hfresh Hnd]. rewrite (IH Hnd).
  destruct (decide (k0 = k)) as [->|Hne].
  - apply obj_get_None in Hfresh. rewrite Hfresh, obj_get_set.
    by rewrite !decide_False, decide_True by done.
  - destruct (obj_get entries k); [done|].
    rewrite obj_get_set. case_decide; [done|]. by rewrite decide_False.
Qed.

Lemma make_row_get sd i k v :
  wf_obj sd → k ≠ "__proto__" → obj_get sd k = Some v →
  obj_get (make_row sd i) k = Some (cell v i).
Proof.
  intros Hwf Hk Hget. unfold make_row, Object_entries, own_entries.
  by rewrite fill_get, Hget.
Qed.

(** The keys that the [forEach] leaves, started from any [row]. *)
Lemma fill_keys (entries : obj) i row k :
  k ∈ (foldl (λ row kv, obj_set row kv.1 (cell kv.2 i)) row entries).*1 ↔
    (k ∈ entries.*1 ∧ k ≠ "__proto__") ∨ k ∈ row.*1.
Proof.
  revert row. induction entries as [|[k0 v0] entries IH]; intros row; simpl.
  - rewrite elem_of_nil. tauto.
  - rewrite IH, keys_set, elem_of_cons; simpl.
    split; [intros [?|[[? ->]|?]] | intros [[[->|?] ?]|?]]; tauto.
Qed.

(** Every row has the keys of the remaining fields, except [__proto__]. *)
Lemma tableData_row_keys data row k :
  row ∈ tableData (JObj data) →
  k ∈ row.*1 ↔ k ∈ (fields data).*1 ∧ k ≠ "__proto__".
Proof.
  rewrite tableData_rows. intros (i & -> & _)%list_elem_of_fmap.
  unfold make_row, Object_entries, own_entries.
  rewrite fill_keys; simpl. rewrite elem_of_nil. tauto.
Qed.

(** C8.  The rows of [{title: ["A","B"], note: "x"}] are exactly
    [{title:"A", note:"x"}] and then [{title:"B", note:""}]. *)
Theorem tableData_title_note :
  tableData (JObj [("title", JArr [JStr "A"; JStr "B"]); ("note", JStr "x")]) =
    [ [("title", JStr "A"); ("note", JStr "x")];
      [("title", JStr "B"); ("note", JStr "")] ].
Proof. reflexivity. Qed.

(** C1, as stated, fails where a sequence holds a falsy element.  In
    [{a: [0]}] the index 0 is below the width 1 and present in the sequence,
    with the element [0]; the row holds the empty string under [a], where
    the statement asks for the element. *)
Lemma tableData_falsy_element_blanked :
  let data := [("a", JArr [JNum 0])] in
  wf_obj data ∧ 0 < width data ∧
  obj_get (fields data) "a" = Some (JArr [JNum 0]) ∧
  stated_cell (JArr [JNum 0]) 0 = JNum 0 ∧
  ∃ row, tableData (JObj data) !! 0 = Some row ∧
         obj_get row "a" = Some (JStr "") ∧
         obj_get row "a" ≠ Some (stated_cell (JArr [JNum 0]) 0).
Proof.
  simpl. split; [compute_done|].
  split; [vm_compute; lia|]. split; [done|]. split; [done|].
  eexists. split; [reflexivity|]. by split.
Qed.

(** C1, amended.  For every well-formed mapping and every row index [i]
    below the width, and for each non-metadata field with an ordinary name:
    if the value of the field is a sequence, the row holds the element at
    index [i] when that index is present and the element is truthy, and the
    empty string otherwise (no such index, or a falsy element: null, false,
    0 or the empty string); if the value is a scalar, the row holds that
    scalar when [i = 0] and the empty string for every [i > 0].  A field
    named [__proto__] is left out of the statement. *)
Theorem tableData_cell_value data i key values :
  wf_obj data → i < width data →
  obj_get (fields data) key = Some values → key ≠ "__proto__" →
  ∃ row, tableData (JObj data) !! i = Some row ∧
         obj_get row key = Some
           match values with
           | JArr l => match l !! i with
                       | Some e => if truthy e then e else JStr ""
                       | None => JStr ""
                       end
           | _ => if decide (i = 0) then values else JStr ""
           end.
Proof.
  intros Hwf Hi Hget Hkey. exists (make_row (fields data) i).
  split; [by apply tableData_lookup|].
  rewrite (make_row_get _ _ _ values) by (try apply wf_obj_rest; done).
  f_equal. destruct values as [| | | | |l|]; try done.
  unfold cell, js_or, index. by destruct (l !! i) as [e|].
Qed.

Lemma tableData_cell_value_witness :
  let data := [("title", JArr [JStr "A"; JNum 0; JStr "C"]);
               ("_metadata", JObj [("scraped_at", JStr "today")]);
               ("note", JStr "x")] in
  wf_obj data ∧ 1 < width data ∧
  obj_get (fields data) "title" = Some (JArr [JStr "A"; JNum 0; JStr "C"]) ∧
  "title" ≠ "__proto__" ∧
  ∃ row, tableData (JObj data) !! 1 = Some row ∧
         obj_get row "title" = Some (JStr "").
Proof.
  intros data.
  assert (Hwf : wf_obj data) by (compute_done).
  assert (Hi : 1 < width data) by (vm_compute; lia).
  assert (Hget : obj_get (fields data) "title" =
                 Some (JArr [JStr "A"; JNum 0; JStr "C"])) by reflexivity.
  assert (Hkey : "title" ≠ "__proto__") by discriminate.
  repeat split; try assumption.
  exact (tableData_cell_value data 1 "title" _ Hwf Hi Hget Hkey).
Defined.

(** C7.  The empty mapping has no row and is rendered as "No data
    available"; a mapping that is not empty and whose remaining fields are
    all empty sequences has no row either and is rendered as "No data found
    with the specified selectors"; the two renderings differ. *)
Theorem render_empty_states data :
  data ≠ [] → Forall (λ kv, kv.2 = JArr []) (fields data) →
  tableData (JObj []) = [] ∧
  render (JObj []) = Message "No data available" ∧
  tableData (JObj data) = [] ∧
  render (JObj data) = Message "No data found with the specified selectors" ∧
  render (JObj []) ≠ render (JObj data).
Proof.
  intros Hne Hall.
  assert (Hw : width data = 0).
  { unfold width. revert Hall. generalize (fields data). intros l Hall.
    induction Hall as [|[k v] l Hv _ IH]; [done|].
    rewrite fmap_cons. cbn [max_list_with]. simpl in Hv. subst v.
    by rewrite IH. }
  assert (Hrows : tableData (JObj data) = []) by (by rewrite tableData_rows, Hw).
  assert (Hview : render (JObj data) =
                  Message "No data found with the specified selectors").
  { unfold render. rewrite Hrows. by destruct data. }
  rewrite Hview. by repeat split.
Qed.

Lemma render_empty_states_witness :
  let data := [("a", JArr [])] in
  data ≠ [] ∧ Forall (λ kv, kv.2 = JArr []) (fields data) ∧
  tableData (JObj data) = [] ∧
  render (JObj data) = Message "No data found with the specified selectors" ∧
  render (JObj []) ≠ render (JObj data).
Proof.
  intros data.
  assert (Hne : data ≠ []) by discriminate.
  assert (Hall : Forall (λ kv, kv.2 = JArr []) (fields data))
    by (by repeat constructor).
  destruct (render_empty_states data Hne Hall) as (_ & _ & Hrows & Hview & Hdiff).
  by repeat split.
Defined.

(** C10 fails on a field named [__proto__].  The mapping below has the two
    non-metadata keys [__proto__] and [b]; its only row has the key [b]
    alone, because the assignment [row["__proto__"] = "A"] creates no
    property. *)
Theorem tableData_proto_field_missing :
  let data := [("__proto__", JArr [JStr "A"]); ("b", JArr [JStr "B"])] in
  wf_obj data ∧
  (fields data).*1 = ["__proto__"; "b"] ∧
  tableData (JObj data) = [[("b", JStr "B")]] ∧
  ∃ row, row ∈ tableData (JObj data) ∧ "__proto__" ∉ row.*1.
Proof.
  simpl. split; [compute_done|]. split; [done|]. split; [done|].
  exists [("b", JStr "B")]. split; [by left|]. compute_done.
Qed.

End normalizer.

(** ** The scraping form and the dashboard *)

Section dashboard.
Import Js ScrapingForm Dashboard.
Implicit Types (s : state) (f : formData) (j : job) (h : nat).

Lemma truthy_JStr (x : string) : truthy (JStr x) = true ↔ x ≠ "".
Proof.
  simpl. rewrite negb_true_iff. split.
  - intros Hx ->. by rewrite String.eqb_refl in Hx.
  - intros Hx. by apply String.eqb_neq.
Qed.

(** Rows with an empty field or an empty selector add nothing. *)
Lemma selectorsObj_invalid (rows : list selector_row) :
  Forall (λ p, field p = "" ∨ selector p = "") rows → selectorsObj rows = [].
Proof.
  unfold selectorsObj. generalize (@nil (string * jsval)) as acc.
  intros acc Hall. revert acc.
  induction Hall as [|p rows Hp _ IH]; intros acc; simpl; [done|].
  rewrite IH. destruct Hp as [-> | ->]; simpl; [done|].
  by rewrite andb_false_r.
Qed.

(** A row with both parts filled and an ordinary field name is in the
    object. *)
Lemma selectorsObj_valid (rows : list selector_row) p :
  p ∈ rows → field p ≠ "" → selector p ≠ "" → field p ≠ "__proto__" →
  field p ∈ (selectorsObj rows).*1.
Proof.
  unfold selectorsObj. generalize (@nil (string * jsval)) as acc.
  intros acc Hin Hf Hsel Hproto.
  assert (Hgoal : field p ∈ acc.*1 ∨ p ∈ rows) by (by right).
  clear Hin. revert acc Hgoal.
  induction rows as [|q rows IH]; intros acc [Hacc|Hin]; cbn [foldl].
  - done.
  - by apply elem_of_nil in Hin.
  - apply IH. left.
    destruct (truthy (JStr (field q)) && truthy (JStr (selector q))).
    + apply keys_set. by right.
    + done.
  - apply IH. apply elem_of_cons in Hin as [<-|Hin]; [left|by right].
    apply truthy_JStr in Hf, Hsel. rewrite Hf, Hsel. cbn [andb].
    apply keys_set. by left.
Qed.

(** A form with a URL and such a row passes the validation. *)
Lemma handleSubmit_valid f p :
  url f ≠ "" → p ∈ selectors f →
  field p ≠ "" → selector p ≠ "" → field p ≠ "__proto__" →
  handleSubmit f = onSubmit {| sd_url := url f;
                               sd_use_selenium := use_selenium f;
                               sd_selectors := selectorsObj (selectors f) |}.
Proof.
  intros Hurl Hin Hf Hsel Hproto. unfold handleSubmit.
  apply truthy_JStr in Hurl. rewrite Hurl. simpl.
  destruct (selectors f) as [|q rows] eqn:Hrows; [by apply elem_of_nil in Hin|].
  simpl. rewrite <- Hrows in *.
  pose proof (selectorsObj_valid _ p Hin Hf Hsel Hproto) as Hkey.
  unfold Object_keys, own_entries.
  destruct (selectorsObj (selectors f)) as [|kv o]; [by apply elem_of_nil in Hkey|].
  done.
Qed.

(** C5.  When the URL is filled in, there is a selector row, and every row
    has an empty field or an empty selector, the submission ends with the
    alert for the lack of valid selectors: no request is issued, and the
    job collection and everything else but the alert are as before. *)
Theorem submit_no_valid_selectors s f s' :
  url f ≠ "" → selectors f ≠ [] →
  Forall (λ p, field p = "" ∨ selector p = "") (selectors f) →
  step s (Submit f) = Some s' →
  handleSubmit f = alert "Please add valid selectors" ∧
  s' = alert_show "Please add valid selectors" s ∧
  scrapeJobs s' = scrapeJobs s ∧
  creating s' = creating s.
Proof.
  intros Hurl Hrows Hall Hstep.
  assert (Hsub : handleSubmit f = alert "Please add valid selectors").
  { unfold handleSubmit. apply truthy_JStr in Hurl. rewrite Hurl. simpl.
    rewrite selectorsObj_invalid by done.
    by destruct (selectors f). }
  simpl in Hstep. rewrite Hsub in Hstep.
  case_guard; simplify_eq/=. done.
Qed.

Lemma submit_no_valid_selectors_witness :
  let f := {| url := "https://example.com"; use_selenium := false;
              selectors := [ {| field := "title"; selector := "" |};
                             {| field := ""; selector := "" |} ] |} in
  let s' := alert_show "Please add valid selectors" init in
  url f ≠ "" ∧ selectors f ≠ [] ∧
  Forall (λ p, field p = "" ∨ selector p = "") (selectors f) ∧
  step init (Submit f) = Some s' ∧
  handleSubmit f = alert "Please add valid selectors" ∧
  scrapeJobs s' = scrapeJobs init ∧
  creating s' = creating init.
Proof.
  intros f s'.
  assert (Hurl : url f ≠ "") by discriminate.
  assert (Hrows : selectors f ≠ []) by discriminate.
  assert (Hall : Forall (λ p, field p = "" ∨ selector p = "") (selectors f))
    by (repeat constructor; simpl; auto).
  assert (Hstep : step init (Submit f) = Some s') by reflexivity.
  destruct (submit_no_valid_selectors init f s' Hurl Hrows Hall Hstep)
    as (Hsub & _ & Hjobs & Hreq).
  by repeat split.
Defined.

(** What [pollJobStatus] leaves in the timer table. *)
Lemma pollJobStatus_timers jobId s :
  timers (pollJobStatus jobId s) =
    <[S (next_handle s) := {| due := now s + 300000; every := None;
                              callback_of := poll_stop (next_handle s) |}]>
      (<[next_handle s := {| due := now s + 2000; every := Some 2000%Z;
                             callback_of := poll_tick jobId (next_handle s) |}]>
         (timers s)).
Proof. done. Qed.

(** C6 fails for a form whose only filled-in row has the field
    [__proto__].  The URL is filled in and the row has a field and a
    selector, but the assignment [selectorsObj["__proto__"] = "h1"] creates
    no property, so the object stays empty: the alert for the lack of valid
    selectors is shown, no request is issued, and no response can arrive
    that would put a job into the collection. *)
Theorem submit_proto_row_not_sent :
  let f := {| url := "https://example.com"; use_selenium := false;
              selectors := [ {| field := "__proto__"; selector := "h1" |} ] |} in
  let s1 := alert_show "Please add valid selectors" init in
  url f ≠ "" ∧
  Exists (λ p, field p ≠ "" ∧ selector p ≠ "") (selectors f) ∧
  selectorsObj (selectors f) = [] ∧
  handleSubmit f = alert "Please add valid selectors" ∧
  step init (Submit f) = Some s1 ∧
  creating s1 = [] ∧ scrapeJobs s1 = [] ∧
  ∀ k r, step s1 (CreateResolved k r) = None.
Proof.
  simpl. split; [discriminate|].
  split; [left; split; discriminate|].
  split; [reflexivity|]. split; [reflexivity|]. split; [reflexivity|].
  split; [reflexivity|]. split; [reflexivity|].
  intros k r. by destruct k.
Qed.

(** X27.  Take a form with a URL and a row whose field and selector are
    both filled in, the field not being [__proto__], and let it be
    submitted.  Then the job-creation request is issued with the data of
    the form, and it can settle either way.  When it succeeds with a job,
    that job is at position 0 of the collection, in front of the jobs that
    were there, it is the current job, and a polling loop for its id is in
    the timer table together with the timer that ends the loop; when it
    fails, the collection is as it was. *)
Theorem submit_usable_then_created s f s1 :
  url f ≠ "" → Exists usable (selectors f) →
  step s (Submit f) = Some s1 →
  creating s1 = (creating s ++
    [ {| sd_url := url f; sd_use_selenium := use_selenium f;
         sd_selectors := selectorsObj (selectors f) |} ])%list ∧
  ∀ r, ∃ s2,
    step s1 (CreateResolved (length (creating s)) r) = Some s2 ∧
    match r with
    | inl j =>
        scrapeJobs s2 = j :: scrapeJobs s ∧
        currentJob s2 = Some j ∧
        timers s2 !! next_handle s =
          Some {| due := now s + 2000; every := Some 2000%Z;
                  callback_of := poll_tick (id j) (next_handle s) |} ∧
        timers s2 !! S (next_handle s) =
          Some {| due := now s + 300000; every := None;
                  callback_of := poll_stop (next_handle s) |}
    | inr _ => scrapeJobs s2 = scrapeJobs s
    end.
Proof.
  intros Hurl (p & Hp & Hf & Hs & Hproto)%Exists_exists Hsubmit.
  pose proof (handleSubmit_valid f p Hurl Hp Hf Hs Hproto) as Hvalid.
  simpl in Hsubmit. rewrite Hvalid in Hsubmit.
  case_guard; [|done]. injection Hsubmit as <-.
  split; [done|]. intros r. eexists. split.
  - simpl. rewrite list_lookup_middle by done. reflexivity.
  - destruct r as [j|detail]; simpl; [|done].
    split; [done|]. split; [done|]. split.
    + rewrite lookup_insert_ne by lia. by rewrite lookup_insert_eq.
    + by rewrite lookup_insert_eq.
Qed.

Lemma submit_usable_then_created_witness :
  let f := {| url := "https://example.com"; use_selenium := false;
              selectors := [ {| field := "title"; selector := "h1" |};
                             {| field := ""; selector := "" |} ] |} in
  let j := {| id := 7; job_url := "https://example.com"; status := "pending";
              result_data := JNull; error_message := "" |} in
  let s1 := handleScrape {| sd_url := "https://example.com";
                            sd_use_selenium := false;
                            sd_selectors := [("title", JStr "h1")] |} init in
  url f ≠ "" ∧ Exists usable (selectors f) ∧
  step init (Submit f) = Some s1 ∧
  ∃ s2, step s1 (CreateResolved 0 (inl j)) = Some s2 ∧
        scrapeJobs s2 = [j] ∧ currentJob s2 = Some j ∧
        is_Some (timers s2 !! 1).
Proof.
  intros f j s1.
  assert (Hurl : url f ≠ "") by discriminate.
  assert (Hrow : Exists usable (selectors f))
    by (left; repeat split; discriminate).
  assert (Hsubmit : step init (Submit f) = Some s1) by reflexivity.
  split; [exact Hurl|]. split; [exact Hrow|]. split; [exact Hsubmit|].
  destruct (submit_usable_then_created init f s1 Hurl Hrow Hsubmit)
    as [_ Hsettle].
  destruct (Hsettle (inl j)) as (s2 & Hstep & Hjobs & Hcur & Hloop & _).
  exists s2. split; [exact Hstep|]. split; [exact Hjobs|].
  split; [exact Hcur|]. by eexists.
Defined.

(** C9.  When a timer whose callback is the one that ends a polling loop
    runs, the loop leaves the timer table, and the job collection, the
    current job, the notifications and the outstanding status requests are
    as before: no job is touched and none is marked failed. *)
Theorem ceiling_leaves_jobs s h t pollInterval s' :
  timers s !! h = Some t → callback_of t = poll_stop pollInterval →
  step s (Fire h) = Some s' →
  ¬ polling pollInterval s' ∧
  scrapeJobs s' = scrapeJobs s ∧
  currentJob s' = currentJob s ∧
  toasts s' = toasts s ∧
  fetching s' = fetching s.
Proof.
  intros Ht Hcb Hstep. simpl in Hstep. rewrite Ht in Hstep. simpl in Hstep.
  case_guard; [|done]. injection Hstep as <-. rewrite Hcb. simpl.
  split; [|done]. unfold polling. simpl. rewrite lookup_delete_eq.
  by intros [? ?].
Qed.

Lemma ceiling_leaves_jobs_witness :
  let j := {| id := 7; job_url := "https://example.com"; status := "running";
              result_data := JNull; error_message := "" |} in
  let s := set_now 300000 (pollJobStatus 7 (setScrapeJobs (cons j) init)) in
  ∃ s', step s (Fire 2) = Some s' ∧
        polling 1 s ∧ ¬ polling 1 s' ∧ scrapeJobs s' = [j].
Proof.
  intros j s.
  assert (Ht : timers s !! 2 = Some {| due := 300000; every := None;
                                       callback_of := poll_stop 1 |})
    by reflexivity.
  eexists. split; [reflexivity|].
  destruct (ceiling_leaves_jobs s 2 _ 1 _ Ht eq_refl eq_refl)
    as (Hstop & Hjobs & _).
  split; [by eexists|]. split; [exact Hstop | exact Hjobs].
Defined.

(** C2, as stated, fails: [pollJobStatus] keeps no record of the ids it
    polls.  Registering the id 7 a second time, while its first loop is in
    the timer table, changes the state and leaves two loops for that id;
    when the interval has passed both run, and two status requests are
    outstanding. *)
Lemma pollJobStatus_twice_two_loops :
  let s1 := pollJobStatus 7 init in
  let s2 := pollJobStatus 7 s1 in
  polling 1 s1 ∧ active_loops 7 s1 = 1 ∧
  s2 ≠ s1 ∧ active_loops 7 s2 = 2 ∧
  fetching <$> run s2 [Elapse 2000; Fire 1; Fire 3] = Some [(1, 7%Z); (3, 7%Z)].
Proof.
  simpl. split; [by eexists|]. split; [compute_done|].
  split; [|split; compute_done].
  intros Heq. apply (f_equal next_handle) in Heq. discriminate.
Qed.

(** C2, amended.  Every call of [pollJobStatus] starts a polling loop of
    its own, whatever loops there are: the number of loops for the id grows
    by exactly one, also when the id is being polled already. *)
Theorem pollJobStatus_adds_loop s jobId :
  wf s → active_loops jobId (pollJobStatus jobId s) = S (active_loops jobId s).
Proof.
  intros [Hkeys _]. unfold active_loops. rewrite pollJobStatus_timers.
  assert (Hfree : ∀ h, (next_handle s ≤ h)%nat → timers s !! h = None).
  { intros h Hle. destruct (timers s !! h) as [t|] eqn:Ht; [|done].
    apply Hkeys in Ht as [Hlt _]. lia. }
  rewrite map_filter_insert_False by (simpl; intros [h Hcb]; discriminate).
  rewrite delete_id by (rewrite lookup_insert_ne by lia; apply Hfree; lia).
  rewrite map_filter_insert_True by (simpl; by eexists).
  apply map_size_insert_None, map_lookup_filter_None_2. left. by apply Hfree.
Qed.

Lemma pollJobStatus_adds_loop_witness :
  let s := pollJobStatus 7 init in
  wf s ∧ active_loops 7 s = 1 ∧ active_loops 7 (pollJobStatus 7 s) = 2.
Proof.
  intros s.
  assert (Hwf : wf s) by compute_done.
  assert (Hone : active_loops 7 s = 1) by compute_done.
  split; [exact Hwf|]. split; [exact Hone|].
  rewrite (pollJobStatus_adds_loop s 7 Hwf). by rewrite Hone.
Defined.

(** *** The ceiling of a polling loop *)

Lemma run_app s es1 es2 :
  run s (es1 ++ es2) = run s es1 ≫= λ s1, run s1 es2.
Proof.
  revert s. induction es1 as [|e es1 IH]; intros s; simpl; [done|].
  destruct (step s e) as [s1|]; simpl; [apply IH | done].
Qed.

Lemma pollJobStatus_guarded jobId s :
  wf s → guarded (next_handle s) (now s + 300000) (pollJobStatus jobId s).
Proof.
  intros [Htimers Hfetch]. unfold guarded.
  rewrite pollJobStatus_timers. simpl. split_and!.
  - lia.
  - apply map_Forall_insert_2; [simpl; lia|].
    apply map_Forall_insert_2; [simpl; lia|].
    intros h t Ht. apply Htimers in Ht. lia.
  - eapply Forall_impl; [exact Hfetch|]. simpl. lia.
  - left. rewrite lookup_insert_eq. split; [done | lia].
Qed.

(** The guard depends on the timers, the clock and the status requests
    only. *)
Lemma guarded_same h D s s' :
  next_handle s' = next_handle s → timers s' = timers s →
  fetching s' = fetching s → now s' = now s →
  guarded h D s → guarded h D s'.
Proof. unfold guarded. by intros -> -> -> ->. Qed.

Lemma guarded_clearInterval h D x s :
  x ≠ S h → guarded h D s → guarded h D (clearInterval x s).
Proof.
  intros Hx (Hnext & Htimers & Hfetch & Hphase). unfold guarded. simpl.
  split_and!; [done | by apply map_Forall_delete | done |].
  destruct Hphase as [[Hstop Hclock]|[Hstop Hloop]]; [left | right].
  - by rewrite lookup_delete_ne.
  - rewrite !lookup_delete_None. auto.
Qed.

Lemma guarded_pollJobStatus h D jobId s :
  guarded h D s → guarded h D (pollJobStatus jobId s).
Proof.
  intros (Hnext & Htimers & Hfetch & Hphase). unfold guarded.
  rewrite pollJobStatus_timers. simpl. split_and!; [lia | | done |].
  - apply map_Forall_insert_2; [simpl; lia|].
    apply map_Forall_insert_2; [simpl; lia | done].
  - by rewrite !(lookup_insert_ne _ (S (next_handle s))),
      !(lookup_insert_ne _ (next_handle s)) by lia.
Qed.

Lemma guarded_poll_response h D jobId x r s :
  x ≠ S h → guarded h D s → guarded h D (poll_response jobId x r s).
Proof.
  intros Hx Hg. unfold poll_response.
  destruct r as [j|].
  - destruct (String.eqb (status j) "completed" || String.eqb (status j) "failed").
    + destruct (String.eqb (status j) "completed");
        (eapply guarded_same; [..|by apply (guarded_clearInterval h D x s)]);
        done.
    + by eapply guarded_same.
  - eapply guarded_same; [..|by apply (guarded_clearInterval h D x s)]; done.
Qed.

Lemma guarded_rearm h D s h0 t t' :
  timers s !! h0 = Some t → h0 ≠ S h → callback_of t' = callback_of t →
  guarded h D s →
  guarded h D (set_timers (next_handle s) (<[h0 := t']> (timers s)) s).
Proof.
  intros Ht Hh0 Hcb (Hnext & Htimers & Hfetch & Hphase). unfold guarded. simpl.
  split_and!; [done | | done |].
  - apply map_Forall_insert_2; [|done]. rewrite Hcb. by eapply Htimers.
  - destruct Hphase as [[Hstop Hclock]|[Hstop Hloop]]; [left | right].
    + by rewrite lookup_insert_ne.
    + rewrite !lookup_insert_ne; [done | congruence | done].
Qed.

Lemma guarded_invoke h D cb s :
  target cb ≠ S h → guarded h D s → guarded h D (invoke cb s).
Proof.
  intros Hcb Hg. destruct cb as [jobId x|x]; simpl in *.
  - destruct Hg as (Hnext & Htimers & Hfetch & Hphase). unfold guarded. simpl.
    split_and!; try done. apply Forall_app. split; [done|].
    by apply Forall_singleton.
  - by apply guarded_clearInterval.
Qed.

(** The stop timer runs: it leaves the table and takes the loop with it. *)
Lemma guarded_stop h D s :
  guarded h D s →
  guarded h D (clearInterval h (clearInterval (S h) s)).
Proof.
  intros (Hnext & Htimers & Hfetch & Hphase). unfold guarded. simpl.
  split_and!; [done | by do 2 apply map_Forall_delete | done |].
  right. rewrite lookup_delete_eq.
  split; [|done]. rewrite lookup_delete_ne by lia. apply lookup_delete_eq.
Qed.

Lemma step_guarded h D s e s' :
  guarded h D s → step s e = Some s' → guarded h D s'.
Proof.
  intros Hg Hstep.
  destruct e; simpl in Hstep; simplify_option_eq.
  - (* Submit *)
    destruct (handleSubmit f); by eapply guarded_same.
  - (* CreateResolved *)
    destruct r as [j|detail]; simpl.
    + eapply guarded_same;
        [..|apply (guarded_pollJobStatus h D (id j)), Hg]; done.
    + by eapply guarded_same.
  - (* Fire *)
    rename H into t. destruct (decide (h0 = S h)) as [->|Hh0].
    + destruct Hg as (Hnext & Htimers & Hfetch & [[Hstop Hclock]|[Hstop _]]);
        [|congruence].
      assert (t = stop_timer h D) as -> by congruence. simpl.
      apply guarded_stop. by split_and!; [| | |left].
    + assert (Htarget : target (callback_of t) ≠ S h).
      { destruct Hg as (_ & Htimers & _). by eapply Htimers. }
      apply guarded_invoke; [done|].
      destruct (every t) as [ms|].
      * by eapply guarded_rearm.
      * by apply (guarded_clearInterval h D h0 s).
  - (* FetchResolved *)
    destruct H as [x jobId]. simplify_eq.
    assert (Hx : x ≠ S h).
    { destruct Hg as (_ & _ & Hfetch & _).
      by apply (Forall_lookup_1 _ _ _ _ Hfetch Heqo). }
    apply guarded_poll_response; [done|].
    destruct Hg as (Hnext & Htimers & Hfetch & Hphase). unfold guarded. simpl.
    split_and!; try done. by apply Forall_delete.
  - (* Elapse *)
    destruct Hg as (Hnext & Htimers & Hfetch & Hphase). unfold guarded. simpl.
    split_and!; try done.
    destruct Hphase as [[Hstop Hclock]|?]; [left | by right].
    split; [done|]. by apply (H0 _ _ Hstop).
  - (* View *)
    by eapply guarded_same.
  - (* Delete *)
    by eapply guarded_same.
  - (* DeleteResolved *)
    destruct H as [jobId cur]. simplify_eq. unfold deleteJob_response.
    destruct ok; [|by eapply guarded_same].
    destruct cur as [c|]; [case_decide|]; by eapply guarded_same.
Qed.

(** Well-formedness is kept by every event, so every state that the
    component reaches from [init] is well formed. *)
Lemma wf_same s s' :
  next_handle s' = next_handle s → timers s' = timers s →
  fetching s' = fetching s → wf s → wf s'.
Proof. unfold wf. by intros -> -> ->. Qed.

Lemma wf_clearInterval x s : wf s → wf (clearInterval x s).
Proof.
  intros [Htimers Hfetch]. split; [|done]. simpl. by apply map_Forall_delete.
Qed.

Lemma wf_pollJobStatus jobId s : wf s → wf (pollJobStatus jobId s).
Proof.
  intros [Htimers Hfetch]. split; rewrite ?pollJobStatus_timers; simpl.
  - apply map_Forall_insert_2; [simpl; lia|].
    apply map_Forall_insert_2; [simpl; lia|].
    intros h t Ht. apply Htimers in Ht. lia.
  - eapply Forall_impl; [exact Hfetch|]. simpl. lia.
Qed.

Lemma wf_poll_response jobId x r s : wf s → wf (poll_response jobId x r s).
Proof.
  intros Hwf. unfold poll_response. destruct r as [j|].
  - destruct (String.eqb (status j) "completed" || String.eqb (status j) "failed").
    + destruct (String.eqb (status j) "completed");
        (eapply wf_same; [..|by apply (wf_clearInterval x s)]); done.
    + by eapply wf_same.
  - eapply wf_same; [..|by apply (wf_clearInterval x s)]; done.
Qed.

Lemma step_wf s e s' : wf s → step s e = Some s' → wf s'.
Proof.
  intros Hwf Hstep.
  destruct e; simpl in Hstep; simplify_option_eq.
  - destruct (handleSubmit f); by eapply wf_same.
  - destruct r as [j|detail]; simpl.
    + eapply wf_same; [..|apply (wf_pollJobStatus (id j)), Hwf]; done.
    + by eapply wf_same.
  - rename H into t. destruct Hwf as [Htimers Hfetch].
    pose proof (Htimers _ _ Heqo) as [Hh Htarget]. simpl in Hh, Htarget.
    assert (Htable : wf (set_timers (next_handle s)
              match every t with
              | Some ms => <[h := {| due := due t + ms; every := Some ms;
                                     callback_of := callback_of t |}]> (timers s)
              | None => delete h (timers s)
              end s)).
    { split; [|done]. simpl. destruct (every t).
      - by apply map_Forall_insert_2.
      - by apply map_Forall_delete. }
    destruct (callback_of t) as [jobId x|x]; simpl in *.
    + destruct Htable as [Htimers' Hfetch']. split; [done|]. simpl.
      apply Forall_app. split; [done|]. by apply Forall_singleton.
    + by apply (wf_clearInterval x) in Htable.
  - destruct H as [x jobId]. simplify_eq. apply wf_poll_response.
    destruct Hwf as [Htimers Hfetch]. split; [done|]. simpl.
    by apply Forall_delete.
  - by eapply wf_same.
  - by eapply wf_same.
  - by eapply wf_same.
  - destruct H as [jobId cur]. simplify_eq. unfold deleteJob_response.
    destruct ok; [|by eapply wf_same].
    destruct cur as [c|]; [case_decide|]; by eapply wf_same.
Qed.

Lemma run_wf s es s' : wf s → run s es = Some s' → wf s'.
Proof.
  revert s. induction es as [|e es IH]; intros s Hwf Hrun; simpl in Hrun.
  - by simplify_eq.
  - destruct (step s e) as [s1|] eqn:Hstep; [|done].
    eapply IH; [|exact Hrun]. by eapply step_wf.
Qed.

Lemma reachable_wf es s : run init es = Some s → wf s.
Proof. apply run_wf. compute_done. Qed.

Lemma run_guarded h D s es s' :
  guarded h D s → run s es = Some s' → guarded h D s'.
Proof.
  revert s. induction es as [|e es IH]; intros s Hg Hrun; simpl in Hrun.
  - by simplify_eq.
  - destruct (step s e) as [s1|] eqn:Hstep; [|done].
    eapply IH; [|exact Hrun]. by eapply step_guarded.
Qed.

(** C4.  Let [pollJobStatus] be called when the clock shows [now s], and
    let any events follow, whatever the status requests answer and whether
    they succeed.  As long as the loop is in the timer table the clock is at
    most 300000 ms past the call, and every run of the loop's callback
    happened at most 300000 ms after the call. *)
Theorem polling_ceiling s jobId es s' :
  wf s → run (pollJobStatus jobId s) es = Some s' →
  (polling (next_handle s) s' → (now s' ≤ now s + 300000)%Z) ∧
  (∀ pre post : list event, es = (pre ++ Fire (next_handle s) :: post)%list →
     ∃ s1, run (pollJobStatus jobId s) pre = Some s1 ∧
           (now s1 ≤ now s + 300000)%Z).
Proof.
  intros Hwf Hrun.
  assert (Hbound : ∀ es1 s1, run (pollJobStatus jobId s) es1 = Some s1 →
            polling (next_handle s) s1 → (now s1 ≤ now s + 300000)%Z).
  { intros es1 s1 Hrun1 [t Ht].
    pose proof (run_guarded _ _ _ _ _ (pollJobStatus_guarded jobId s Hwf) Hrun1)
      as (_ & _ & _ & [[_ Hclock]|[_ Hloop]]); [done | congruence]. }
  split; [by eapply Hbound|].
  intros pre post ->. rewrite run_app in Hrun.
  destruct (run (pollJobStatus jobId s) pre) as [s1|] eqn:Hpre; [|done].
  exists s1. split; [done|]. eapply Hbound; [done|].
  simpl in Hrun. unfold polling.
  destruct (timers s1 !! next_handle s); [by eexists | done].
Qed.

Lemma polling_ceiling_witness :
  let s' := default init (run (pollJobStatus 7 init) (pending_ticks 150)) in
  wf init ∧
  run (pollJobStatus 7 init) (pending_ticks 150) = Some s' ∧
  polling 1 s' ∧ (now s' ≤ 300000)%Z.
Proof.
  intros s'.
  assert (Hwf : wf init) by compute_done.
  assert (Hrun : run (pollJobStatus 7 init) (pending_ticks 150) = Some s')
    by (vm_compute; reflexivity).
  assert (Hloop : polling 1 s') by compute_done.
  destruct (polling_ceiling init 7 _ s' Hwf Hrun) as [Hclock _].
  split; [exact Hwf|]. split; [exact Hrun|]. split; [exact Hloop|].
  exact (Hclock Hloop).
Defined.

(** After the 150 ticks of five minutes the stop timer runs, and the table
    is empty although the job is still pending. *)
Example pending_job_stops :
  (λ s', (now s', timers s', status <$> scrapeJobs s')) <$>
    run init ([Submit {| url := "https://example.com"; use_selenium := false;
                         selectors := [{| field := "title"; selector := "h1" |}] |};
               CreateResolved 0 (inl pending_job)]
              ++ pending_ticks 150 ++ [Fire 2; Elapse 5000]) =
  Some (305000%Z, ∅, ["pending"]).
Proof. vm_compute. reflexivity. Qed.

End dashboard.

(** ** The export buttons *)

Section export.
Import Js ExportButtons.
Implicit Types (s : state) (f : format).

(** A button is disabled exactly while [exporting] holds its format. *)
Lemma click_disabled jobId s f :
  exporting s = Some f → step jobId s (Click f) = None.
Proof.
  intros Hf. simpl. unfold disabled. rewrite bool_decide_eq_true_2 by done.
  by case_guard.
Qed.

(** A second click at once on the same button does nothing. *)
Lemma click_twice_disabled jobId s f :
  step jobId (handleExport jobId f s) (Click f) = None.
Proof. by apply click_disabled. Qed.

(** A click on another button enables the button again, and so does any
    request that settles. *)
Lemma settle_enables jobId s k ok s' f :
  step jobId s (Resolved k ok) = Some s' →
  is_Some (step jobId s' (Click f)).
Proof.
  simpl. destruct (requests s !! k) as [[j g]|]; [|done]. simpl.
  intros [= <-]. by eexists.
Qed.

Lemma click_other_enables jobId s f g :
  f ≠ g → is_Some (step jobId (handleExport jobId g s) (Click f)).
Proof.
  intros Hfg. simpl. unfold disabled. simpl.
  rewrite bool_decide_eq_false_2 by congruence.
  case_guard; [by eexists | done].
Qed.

Lemma click_enabled jobId s f :
  exporting s ≠ Some f → step jobId s (Click f) = Some (handleExport jobId f s).
Proof.
  intros Hf. simpl. unfold disabled. rewrite bool_decide_eq_false_2 by done.
  by case_guard.
Qed.

(** Whenever the button of [f] is enabled, a click on it, a click on another
    button and a click on it again are all accepted, and put two more
    requests for [f] in flight. *)
Lemma click_interleaved jobId s f g :
  f ≠ g → exporting s ≠ Some f →
  ∃ s', run jobId s [Click f; Click g; Click f] = Some s' ∧
        in_flight jobId f s' = 2 + in_flight jobId f s.
Proof.
  intros Hfg Hfree. eexists. split.
  - cbn [run]. rewrite click_enabled by done. cbn [mbind option_bind].
    rewrite click_enabled by (simpl; congruence). cbn [mbind option_bind].
    rewrite click_enabled by (simpl; congruence). reflexivity.
  - unfold in_flight. simpl. rewrite !filter_app, !length_app.
    rewrite !filter_cons, !filter_nil.
    rewrite (decide_True (P := (jobId, f) = (jobId, f))) by done.
    rewrite (decide_False (P := (jobId, g) = (jobId, f))) by congruence.
    simpl. lia.
Qed.

(** C3 fails when another format is clicked in between.  With the buttons
    of job 7: a click on CSV, a click on JSON and a click on CSV again, no
    request having settled.  The third click is accepted, two CSV requests
    for the job are in flight, and when both succeed the file is handed to
    the browser twice. *)
Theorem export_csv_twice_in_flight :
  ∃ s, run 7 init [Click csv; Click json; Click csv] = Some s ∧
       exporting s = Some csv ∧
       in_flight 7 csv s = 2 ∧
       downloads <$> run 7 s [Resolved 0 true; Resolved 1 true] =
         Some ["scraped_data.csv"; "scraped_data.csv"].
Proof. eexists. split; [reflexivity|]. split; [done|]. split; compute_done. Qed.

End export.

(** ** More on the result table *)

Section table_rows.
Import Js ResultsTable.
Local Open Scope list_scope.
Implicit Types (data sd row : obj) (k key : string) (v values : jsval) (i : nat).

Lemma obj_put_fresh (o : obj) k v : k ∉ o.*1 → obj_put o k v = o ++ [(k, v)].
Proof.
  induction o as [|[k0 v0] o IH]; simpl; [done|].
  rewrite not_elem_of_cons. intros [Hne Hfresh].
  rewrite decide_False by done. by rewrite IH.
Qed.

(** The [forEach] appends the entries in order, with their cells, and skips
    [__proto__]. *)
Lemma fill_explicit (entries : obj) i row :
  NoDup (row.*1 ++ entries.*1) →
  foldl (λ row kv, obj_set row kv.1 (cell kv.2 i)) row entries =
    row ++ ((λ kv, (kv.1, cell kv.2 i)) <$>
              filter (λ kv, kv.1 ≠ "__proto__") entries).
Proof.
  revert row. induction entries as [|[k v] entries IH]; intros row Hnd.
  - simpl. by rewrite app_nil_r.
  - rewrite fmap_cons in Hnd. cbn [foldl fst snd]. unfold obj_set.
    apply NoDup_app in Hnd as (Hrow & Hdisj & Hent).
    apply NoDup_cons in Hent as [Hk Hent].
    assert (Hfresh : k ∉ row.*1).
    { intros Hin. apply (Hdisj _ Hin). left. }
    destruct (decide (k = "__proto__")) as [->|Hproto].
    + rewrite filter_cons_False by (simpl; tauto). apply IH.
      apply NoDup_app. split_and!; [done | | done].
      intros x Hx Hx'. apply (Hdisj _ Hx). by right.
    + rewrite filter_cons_True by done. rewrite obj_put_fresh by done.
      rewrite IH.
      * rewrite fmap_cons. by rewrite <- app_assoc.
      * rewrite fmap_app. simpl. rewrite <- app_assoc. simpl.
        apply NoDup_app. split_and!; [done | | by apply NoDup_cons].
        intros x Hx. apply not_elem_of_cons. split.
        -- intros ->. done.
        -- intros Hx'. apply (Hdisj _ Hx). by right.
Qed.

Lemma make_row_explicit sd i :
  wf_obj sd →
  make_row sd i = (λ kv, (kv.1, cell kv.2 i)) <$>
                    filter (λ kv, kv.1 ≠ "__proto__") sd.
Proof.
  intros Hwf. unfold make_row, Object_entries, own_entries.
  by rewrite fill_explicit.
Qed.

Lemma make_row_keys sd i :
  wf_obj sd → (make_row sd i).*1 = filter (λ k, k ≠ "__proto__") sd.*1.
Proof.
  intros Hwf. rewrite make_row_explicit by done. clear Hwf.
  induction sd as [|[k v] sd IH]; [done|].
  rewrite (fmap_cons fst). cbn [fst].
  destruct (decide (k ≠ "__proto__")).
  - rewrite !filter_cons_True by done. rewrite !fmap_cons. cbn [fst].
    f_equal. exact IH.
  - rewrite !filter_cons_False by done. exact IH.
Qed.

Lemma width_zero data :
  width data = 0 ↔ Forall (λ kv, kv.2 = JArr []) (fields data).
Proof.
  unfold width. induction (fields data) as [|[k v] l IH].
  - split; [constructor | done].
  - rewrite fmap_cons, Forall_cons. cbn [max_list_with snd].
    rewrite <- IH. destruct v as [| | | | |[|e l']|]; simpl; split;
      try lia; try (intros [? ?]; done); try (intros ?; split; [done|lia]).
Qed.

(** X1.  The number of rows is the maximum, over the fields other than
    [_metadata], of the length of an array and 1 for anything else; and
    there is no row exactly when every such field is an empty array (also
    when there is no such field). *)
Theorem tableData_row_count data :
  length (tableData (JObj data)) = max_list_with extent (fields data).*2 ∧
  (tableData (JObj data) = [] ↔ Forall (λ kv, kv.2 = JArr []) (fields data)).
Proof.
  split; [apply tableData_length|].
  rewrite <- width_zero, <- tableData_length. by destruct (tableData _).
Qed.

(** X2.  In every row the keys are those of the input, in the order of the
    input, without [_metadata] (and without [__proto__]); the columns of a
    table that has a row are these keys. *)
Theorem tableData_field_order data row :
  wf_obj data → row ∈ tableData (JObj data) →
  row.*1 = filter (λ k, k ≠ "_metadata" ∧ k ≠ "__proto__") data.*1 ∧
  columns (tableData (JObj data)) = row.*1.
Proof.
  intros Hwf Hrow.
  assert (Hkeys : ∀ i, (make_row (fields data) i).*1 =
            filter (λ k, k ≠ "_metadata" ∧ k ≠ "__proto__") data.*1).
  { intros i. rewrite make_row_keys by by apply wf_obj_rest.
    unfold fields, obj_rest. clear.
    induction data as [|[k v] data IH]; [done|].
    rewrite (fmap_cons fst). cbn [fst].
    destruct (decide (k = "_metadata")) as [->|Hmeta].
    - rewrite (filter_cons_False _ ("_metadata", v)) by (simpl; tauto).
      by rewrite (filter_cons_False _ "_metadata") by tauto.
    - rewrite (filter_cons_True _ (k, v)) by done.
      rewrite (fmap_cons fst). cbn [fst].
      destruct (decide (k = "__proto__")) as [->|Hproto].
      + rewrite !(filter_cons_False _ "__proto__") by tauto. exact IH.
      + rewrite !(filter_cons_True _ k) by done. f_equal. exact IH. }
  rewrite tableData_rows in Hrow |- *.
  apply list_elem_of_fmap in Hrow as (i & -> & Hi).
  split; [apply Hkeys|].
  destruct (width data) as [|n]; [by apply elem_of_nil in Hi|].
  simpl. unfold Object_keys, own_entries. by rewrite !Hkeys.
Qed.

Lemma tableData_field_order_witness :
  let data := [("title", JArr [JStr "A"; JStr "B"]);
               ("_metadata", JObj [("url", JStr "https://example.com")]);
               ("note", JStr "x")] in
  let row := [("title", JStr "B"); ("note", JStr "")] in
  wf_obj data ∧ row ∈ tableData (JObj data) ∧
  row.*1 = ["title"; "note"] ∧
  columns (tableData (JObj data)) = ["title"; "note"].
Proof.
  intros data row.
  assert (Hwf : wf_obj data) by compute_done.
  assert (Hrow : row ∈ tableData (JObj data)) by (right; left).
  destruct (tableData_field_order data row Hwf Hrow) as [Hkeys Hcols].
  split; [exact Hwf|]. split; [exact Hrow|]. split; [reflexivity|].
  by rewrite Hcols.
Defined.

(** X3.  The metadata entry has no influence on the rows: the rows of a
    mapping are those of the mapping without it, and no row has the key
    [_metadata]. *)
Theorem tableData_ignores_metadata data :
  tableData (JObj data) = tableData (JObj (fields data)) ∧
  ∀ row, row ∈ tableData (JObj data) → "_metadata" ∉ row.*1.
Proof.
  assert (Hidem : fields (fields data) = fields data).
  { unfold fields, obj_rest. rewrite list_filter_filter.
    apply list_filter_iff. tauto. }
  split.
  - rewrite !tableData_rows. unfold width. by rewrite Hidem.
  - intros row Hrow Hkey. apply (tableData_row_keys _ _ _ Hrow) in Hkey as [Hkey _].
    apply list_elem_of_fmap in Hkey as ([k v] & Heq & Hin).
    apply list_elem_of_filter in Hin as [Hne _]. done.
Qed.

(** X4.  The two messages of the component, for a mapping: "No data
    available" is returned exactly for the empty mapping; "No data found
    with the specified selectors" exactly for a mapping that is not empty
    and whose fields, but for the metadata, are all empty arrays; and
    neither message is returned exactly when [tableData] has a row. *)
Theorem render_cases data :
  (render (JObj data) = Message "No data available" ↔ data = []) ∧
  (render (JObj data) = Message "No data found with the specified selectors" ↔
     data ≠ [] ∧ Forall (λ kv, kv.2 = JArr []) (fields data)) ∧
  ((∀ text, render (JObj data) ≠ Message text) ↔ tableData (JObj data) ≠ []).
Proof.
  rewrite <- width_zero, <- tableData_length. unfold render.
  destruct data as [|kv data]; simpl.
  - split; [done|]. split; [split; [done | tauto]|].
    split; [intros Hno; by destruct (Hno "No data available") | done].
  - change (kv :: data) with ([kv] ++ data).
    destruct (tableData (JObj ([kv] ++ data))) as [|row rows'] eqn:Hrows; simpl.
    + split; [done|]. split; [done|].
      split; [intros Hno; by destruct (Hno "No data found with the specified selectors") | done].
    + split; [done|]. split; [split; [done | intros [_ ?]; done]|].
      split; [done | by intros _ text].
Qed.

(** X5.  On a field that is not named [__proto__] and whose array holds
    strings only, the rows are as the specification words them: the element
    at the index of the row when there is one, else the empty string. *)
Theorem tableData_strings_as_stated data i key l :
  wf_obj data → i < width data →
  obj_get (fields data) key = Some (JArr l) → key ≠ "__proto__" →
  Forall (λ e, ∃ s, e = JStr s) l →
  ∃ row, tableData (JObj data) !! i = Some row ∧
         obj_get row key = Some (stated_cell (JArr l) i).
Proof.
  intros Hwf Hi Hget Hkey Hstr. exists (make_row (fields data) i).
  split; [by apply tableData_lookup|].
  rewrite (make_row_get _ _ _ (JArr l)) by (try apply wf_obj_rest; done).
  f_equal. unfold cell, stated_cell, js_or, index.
  destruct (l !! i) as [e|] eqn:He; simpl; [|done].
  destruct (Forall_lookup_1 _ _ _ _ Hstr He) as [s ->]. simpl.
  by destruct s.
Qed.

Lemma tableData_strings_as_stated_witness :
  let data := [("title", JArr [JStr "A"; JStr ""]); ("price", JArr [JStr "1"; JStr "2"; JStr "3"])] in
  wf_obj data ∧ 2 < width data ∧
  obj_get (fields data) "title" = Some (JArr [JStr "A"; JStr ""]) ∧
  "title" ≠ "__proto__" ∧
  Forall (λ e, ∃ s, e = JStr s) [JStr "A"; JStr ""] ∧
  ∃ row, tableData (JObj data) !! 2 = Some row ∧
         obj_get row "title" = Some (JStr "").
Proof.
  intros data.
  assert (Hwf : wf_obj data) by compute_done.
  assert (Hi : 2 < width data) by (vm_compute; lia).
  assert (Hget : obj_get (fields data) "title" = Some (JArr [JStr "A"; JStr ""]))
    by reflexivity.
  assert (Hkey : "title" ≠ "__proto__") by discriminate.
  assert (Hstr : Forall (λ e, ∃ s, e = JStr s) [JStr "A"; JStr ""])
    by (repeat constructor; by eexists).
  split; [exact Hwf|]. split; [exact Hi|]. split; [exact Hget|].
  split; [exact Hkey|]. split; [exact Hstr|].
  exact (tableData_strings_as_stated data 2 "title" _ Hwf Hi Hget Hkey Hstr).
Defined.

(** X6.  A mapping whose fields (but for the metadata) are all scalars, with
    at least one of them and none named [__proto__], has exactly one row:
    the fields themselves. *)
Theorem tableData_scalars_one_row data :
  wf_obj data → fields data ≠ [] →
  Forall (λ kv, ∀ l, kv.2 ≠ JArr l) (fields data) →
  "__proto__" ∉ (fields data).*1 →
  tableData (JObj data) = [fields data].
Proof.
  intros Hwf Hne Hscalar Hproto.
  assert (Hw : width data = 1).
  { unfold width. revert Hne Hscalar. generalize (fields data). clear.
    intros l Hne Hscalar.
    induction Hscalar as [|[k v] l Hv Htail IH]; [done|].
    rewrite fmap_cons. cbn [max_list_with snd].
    assert (extent v = 1) as ->.
    { destruct v; try done. by destruct (Hv l0). }
    destruct l as [|kv l]; [done|]. rewrite IH by done. done. }
  rewrite tableData_rows, Hw. simpl. f_equal.
  rewrite make_row_explicit by by apply wf_obj_rest.
  revert Hscalar Hproto. generalize (fields data). clear.
  intros l Hscalar Hproto.
  induction Hscalar as [|[k v] l Hv Htail IH]; [done|].
  rewrite fmap_cons in Hproto. apply not_elem_of_cons in Hproto as [Hk Hproto].
  simpl in Hk. rewrite filter_cons_True by (simpl; congruence).
  rewrite fmap_cons. f_equal; [|by apply IH]. simpl. f_equal.
  destruct v; try done. by destruct (Hv l0).
Qed.

Lemma tableData_scalars_one_row_witness :
  let data := [("title", JStr "Hello"); ("count", JNum 0);
               ("_metadata", JNull)] in
  wf_obj data ∧ fields data ≠ [] ∧
  Forall (λ kv, ∀ l, kv.2 ≠ JArr l) (fields data) ∧
  ("__proto__" ∉ (fields data).*1) ∧
  tableData (JObj data) = [[("title", JStr "Hello"); ("count", JNum 0)]].
Proof.
  intros data.
  assert (Hwf : wf_obj data) by compute_done.
  assert (Hne : fields data ≠ []) by discriminate.
  assert (Hscalar : Forall (λ kv, ∀ l, kv.2 ≠ JArr l) (fields data))
    by (repeat constructor; intros l; discriminate).
  assert (Hproto : "__proto__" ∉ (fields data).*1) by compute_done.
  split; [exact Hwf|]. split; [exact Hne|]. split; [exact Hscalar|].
  split; [exact Hproto|].
  exact (tableData_scalars_one_row data Hwf Hne Hscalar Hproto).
Defined.

End table_rows.

(** ** More on the scraping form *)

Section form.
Import Js ScrapingForm.
Local Open Scope list_scope.
Implicit Types (f : formData) (p q : selector_row) (rows : list selector_row)
  (o : obj) (k : string) (v : jsval).

Lemma add_row_usable o p :
  usable p → add_row o p = obj_put o (field p) (JStr (selector p)).
Proof.
  intros (Hf & Hs & Hproto). unfold add_row, obj_set.
  apply truthy_JStr in Hf, Hs. rewrite Hf, Hs. simpl.
  by rewrite decide_False.
Qed.

Lemma add_row_unusable o p : ¬ usable p → add_row o p = o.
Proof.
  intros Hno. unfold add_row, obj_set.
  destruct (truthy (JStr (field p))) eqn:Hf; [|done].
  destruct (truthy (JStr (selector p))) eqn:Hs; [|done]. simpl.
  case_decide; [done|]. destruct Hno.
  split_and!; [by apply truthy_JStr | by apply truthy_JStr | done].
Qed.

Lemma selectorsObj_foldl rows :
  selectorsObj rows = foldl add_row [] rows.
Proof. done. Qed.

Lemma elem_of_obj_put o k v k' v' :
  (k', v') ∈ obj_put o k v → (k', v') = (k, v) ∨ (k', v') ∈ o.
Proof.
  induction o as [|[k0 v0] o IH]; simpl.
  - rewrite list_elem_of_singleton. auto.
  - case_decide; rewrite !elem_of_cons; [tauto|].
    intros [?|?]; [tauto|]. destruct IH; auto.
Qed.

Lemma wf_obj_put o k v : wf_obj o → wf_obj (obj_put o k v).
Proof.
  unfold wf_obj. induction o as [|[k0 v0] o IH]; simpl.
  - intros _. apply NoDup_singleton.
  - rewrite NoDup_cons. intros [Hk0 Ho].
    case_decide; subst; simpl; apply NoDup_cons.
    + done.
    + split; [|by apply IH]. rewrite keys_put. intros [?|?]; [congruence | done].
Qed.

(** What the [forEach] has collected, started from any object. *)
Lemma foldl_add_row_elem rows o k v :
  (k, v) ∈ foldl add_row o rows →
  (k, v) ∈ o ∨ ∃ p, p ∈ rows ∧ usable p ∧ k = field p ∧ v = JStr (selector p).
Proof.
  revert o. induction rows as [|q rows IH]; intros o; simpl; [auto|].
  intros [Hin|(p & Hp & Hrest)]%IH.
  - destruct (decide (usable q)) as [Hq|Hq].
    + rewrite add_row_usable in Hin by done.
      apply elem_of_obj_put in Hin as [[= -> ->]|Hin]; [|auto].
      right. exists q. split; [left | done].
    + rewrite add_row_unusable in Hin by done. auto.
  - right. exists p. split; [by right | done].
Qed.

Lemma foldl_add_row_wf rows o : wf_obj o → wf_obj (foldl add_row o rows).
Proof.
  revert o. induction rows as [|q rows IH]; intros o Hwf; simpl; [done|].
  apply IH. unfold add_row, obj_set.
  repeat case_match; try done. by apply wf_obj_put.
Qed.

Lemma foldl_add_row_get rows o k :
  Forall (λ q, ¬ (usable q ∧ field q = k)) rows →
  obj_get (foldl add_row o rows) k = obj_get o k.
Proof.
  intros Hall. revert o. induction Hall as [|q rows Hq _ IH]; intros o; simpl; [done|].
  rewrite IH. destruct (decide (usable q)) as [Hu|Hu].
  - rewrite add_row_usable by done. rewrite obj_get_put.
    rewrite decide_False; [done|]. intros Heq. by destruct Hq.
  - by rewrite add_row_unusable.
Qed.

Lemma foldl_add_row_app rows1 rows2 o :
  foldl add_row o (rows1 ++ rows2) = foldl add_row (foldl add_row o rows1) rows2.
Proof. apply foldl_app. Qed.

(** X7.  The object sent with a submission has no field twice, and each of
    its entries comes from a row of the form whose field and selector are
    both filled in: it never holds an empty field name or an empty
    selector. *)
Theorem selectorsObj_entries rows :
  wf_obj (selectorsObj rows) ∧
  ∀ k v, (k, v) ∈ selectorsObj rows →
    k ≠ "" ∧ ∃ p, p ∈ rows ∧ field p = k ∧ selector p ≠ "" ∧ v = JStr (selector p).
Proof.
  rewrite selectorsObj_foldl. split.
  - apply foldl_add_row_wf, NoDup_nil_2.
  - intros k v [Hin|(p & Hp & (Hf & Hs & _) & -> & ->)]%foldl_add_row_elem.
    + by apply elem_of_nil in Hin.
    + split; [done|]. by exists p.
Qed.

(** X8.  When a field name other than [__proto__] is filled in on several
    rows, the selector sent for it is that of the last of these rows that
    has a selector; for the field name [__proto__] nothing is sent. *)
Theorem selectorsObj_last_wins rows1 p rows2 :
  field p ≠ "" → selector p ≠ "" → field p ≠ "__proto__" →
  Forall (λ q, field q = field p → selector q = "") rows2 →
  obj_get (selectorsObj (rows1 ++ p :: rows2)) (field p) =
    Some (JStr (selector p)) ∧
  obj_get (selectorsObj (rows1 ++ p :: rows2)) "__proto__" = None.
Proof.
  intros Hf Hs Hproto Hlater.
  assert (Hp : usable p) by done.
  assert (Hlater' : Forall (λ q, ¬ (usable q ∧ field q = field p)) rows2).
  { eapply Forall_impl; [exact Hlater|]. simpl.
    intros q Hq [(_ & Hsq & _) Heq]. by apply Hsq, Hq. }
  split.
  - rewrite selectorsObj_foldl, foldl_add_row_app. simpl.
    rewrite foldl_add_row_get by done. rewrite add_row_usable by done.
    rewrite obj_get_put. by rewrite decide_True.
  - apply obj_get_None. intros ([k v] & Hk & Hin)%list_elem_of_fmap.
    simpl in Hk. subst k. rewrite selectorsObj_foldl in Hin.
    apply foldl_add_row_elem in Hin as [Hin|(q & _ & (_ & _ & Hq) & Heq & _)].
    + by apply elem_of_nil in Hin.
    + by apply Hq.
Qed.

Lemma selectorsObj_last_wins_witness :
  let rows1 := [ {| field := "title"; selector := "h1" |};
                 {| field := "__proto__"; selector := "a" |} ] in
  let p := {| field := "title"; selector := "h2" |} in
  let rows2 := [ {| field := "title"; selector := "" |} ] in
  field p ≠ "" ∧ selector p ≠ "" ∧ field p ≠ "__proto__" ∧
  Forall (λ q, field q = field p → selector q = "") rows2 ∧
  obj_get (selectorsObj (rows1 ++ p :: rows2)) "title" = Some (JStr "h2") ∧
  obj_get (selectorsObj (rows1 ++ p :: rows2)) "__proto__" = None.
Proof.
  intros rows1 p rows2.
  assert (Hf : field p ≠ "") by discriminate.
  assert (Hs : selector p ≠ "") by discriminate.
  assert (Hproto : field p ≠ "__proto__") by discriminate.
  assert (Hlater : Forall (λ q, field q = field p → selector q = "") rows2)
    by (by repeat constructor).
  split; [exact Hf|]. split; [exact Hs|]. split; [exact Hproto|].
  split; [exact Hlater|].
  exact (selectorsObj_last_wins rows1 p rows2 Hf Hs Hproto Hlater).
Defined.

(** X9.  The form is submitted exactly when the URL is not empty and some
    row has a field and a selector, the field not being [__proto__]; what
    is submitted is the URL, the checkbox and the object of the rows.  In
    every other case an alert is shown and nothing is submitted. *)
Theorem handleSubmit_submits_iff f d :
  handleSubmit f = onSubmit d ↔
    url f ≠ "" ∧ Exists usable (selectors f) ∧
    d = {| sd_url := url f; sd_use_selenium := use_selenium f;
           sd_selectors := selectorsObj (selectors f) |}.
Proof.
  split.
  - unfold handleSubmit.
    destruct (truthy (JStr (url f))) eqn:Hurl; simpl; [|done].
    destruct (length (selectors f) =? 0)%nat; [done|].
    unfold Object_keys, own_entries.
    destruct (selectorsObj (selectors f)) as [|[k v] o] eqn:Hobj; simpl; [done|].
    intros [= <-]. split; [by apply truthy_JStr|]. split; [|done].
    assert (Hin : (k, v) ∈ selectorsObj (selectors f)) by (rewrite Hobj; left).
    rewrite selectorsObj_foldl in Hin.
    apply foldl_add_row_elem in Hin as [Hin|(p & Hp & Hu & _)].
    + by apply elem_of_nil in Hin.
    + apply Exists_exists. by exists p.
  - intros (Hurl & (p & Hp & Hf & Hs & Hproto)%Exists_exists & ->).
    by apply (handleSubmit_valid f p).
Qed.

(** The [filter] of [removeSelector] takes out the row at the index. *)
Lemma imap_shift {A} (l : list A) (n : nat) :
  imap ((λ i x, (n + i, x)) ∘ S) l = imap (λ i x, (S n + i, x)) l.
Proof. apply imap_ext. intros i x _. simpl. f_equal. lia. Qed.

Lemma filter_index_ge {A} (l : list A) (n m : nat) :
  m < n →
  (filter (λ ix, ix.1 ≠ m) (imap (λ i x, (n + i, x)) l)).*2 = l.
Proof.
  revert n. induction l as [|x l IH]; intros n Hm; [done|].
  rewrite imap_cons, imap_shift. rewrite filter_cons_True by (simpl; lia).
  rewrite fmap_cons. cbn [snd]. f_equal. apply IH. lia.
Qed.

Lemma filter_index_delete {A} (l : list A) (n k : nat) :
  (n ≤ k)%nat →
  (filter (λ ix, ix.1 ≠ k) (imap (λ i x, (n + i, x)) l)).*2 =
    delete (k - n) l.
Proof.
  revert n. induction l as [|x l IH]; intros n Hk; [done|].
  rewrite imap_cons, imap_shift. destruct (decide (k = n)) as [->|Hne].
  - rewrite filter_cons_False by (simpl; lia).
    rewrite filter_index_ge by lia. by rewrite Nat.sub_diag.
  - rewrite filter_cons_True by (simpl; lia).
    rewrite fmap_cons. cbn [snd]. rewrite IH by lia.
    by replace (k - n) with (S (k - S n)) by lia.
Qed.

Lemma removeSelector_selectors index f :
  selectors (removeSelector index f) = delete index (selectors f).
Proof.
  unfold removeSelector. cbn [selectors].
  pose proof (filter_index_delete (selectors f) 0 index (Nat.le_0_l _)) as H.
  rewrite Nat.sub_0_r in H. exact H.
Qed.

(** X10.  The remove buttons never take the last row away: a form that has
    a row still has one after any editing, so the alert for a form without
    rows is not shown for it. *)
Theorem edits_keep_a_row f es f' :
  selectors f ≠ [] → edits f es = Some f' →
  selectors f' ≠ [] ∧ handleSubmit f' ≠ alert "Please add at least one selector".
Proof.
  intros Hrows Hrun.
  assert (Hrows' : selectors f' ≠ []).
  { revert f Hrows Hrun. induction es as [|e es IH]; intros f Hrows Hrun.
    - simpl in Hrun. by simplify_eq.
    - simpl in Hrun. destruct (edit_step f e) as [f1|] eqn:Hstep; [|done].
      apply (IH f1); [|done]. clear IH Hrun.
      destruct e as [[value|checked]|index p value| |index];
        simpl in Hstep; simplify_option_eq; try done.
      + simpl. intros Heq. apply (f_equal length) in Heq.
        rewrite length_imap in Heq. by destruct (selectors f).
      + simpl. by destruct (selectors f).
      + intros Heq. change (selectors (removeSelector index f) = []) in Heq.
        rewrite removeSelector_selectors in Heq.
        apply (f_equal length) in Heq. rewrite length_delete in Heq.
        * simpl in Heq. lia.
        * by apply lookup_lt_is_Some_2. }
  split; [done|]. unfold handleSubmit.
  destruct (selectors f') as [|p rows]; [done|]. simpl.
  repeat case_match; done.
Qed.

Lemma edits_keep_a_row_witness :
  let es := [RemoveSelector 0; Change (url_input "https://example.com");
             AddSelector; RemoveSelector 0;
             SelectorChange 0 field_part "price"] in
  let f' := {| url := "https://example.com"; use_selenium := false;
               selectors := [ {| field := "price"; selector := "" |} ] |} in
  selectors initialForm ≠ [] ∧
  edits initialForm es = Some f' ∧
  selectors f' ≠ [] ∧
  handleSubmit f' ≠ alert "Please add at least one selector".
Proof.
  intros es f'.
  assert (Hrows : selectors initialForm ≠ []) by discriminate.
  assert (Hrun : edits initialForm es = Some f') by reflexivity.
  destruct (edits_keep_a_row initialForm es f' Hrows Hrun) as [Hkept Hsubmit].
  split; [exact Hrows|]. split; [exact Hrun|]. split; [exact Hkept|].
  exact Hsubmit.
Defined.

(** X11.  An added row that is left blank changes nothing in what a form
    with a row submits or reports. *)
Theorem addSelector_harmless f :
  selectors f ≠ [] → handleSubmit (addSelector f) = handleSubmit f.
Proof.
  intros Hrows. unfold handleSubmit.
  assert (Hobj : selectorsObj (selectors (addSelector f)) =
                 selectorsObj (selectors f)).
  { simpl. rewrite !selectorsObj_foldl, foldl_add_row_app. done. }
  rewrite Hobj. simpl. rewrite length_app. simpl.
  destruct (selectors f) as [|p rows]; [done|]. simpl.
  by replace (length rows + 1) with (S (length rows)) by lia.
Qed.

Lemma addSelector_harmless_witness :
  let f := handleChange (url_input "https://example.com") initialForm in
  selectors f ≠ [] ∧
  handleSubmit (addSelector f) =
    onSubmit {| sd_url := "https://example.com"; sd_use_selenium := false;
                sd_selectors := [("title", JStr "h1, h2, h3");
                                 ("links", JStr "a[href]")] |}.
Proof.
  intros f.
  assert (Hrows : selectors f ≠ []) by discriminate.
  split; [exact Hrows|].
  rewrite (addSelector_harmless f Hrows). reflexivity.
Defined.

(** X12.  Removing the row that was just added gives the form back. *)
Theorem removeSelector_addSelector f :
  removeSelector (length (selectors f)) (addSelector f) = f.
Proof.
  assert (Hsel : selectors (removeSelector (length (selectors f)) (addSelector f))
                 = selectors f).
  { rewrite removeSelector_selectors. simpl.
    rewrite delete_middle. apply app_nil_r. }
  destruct f as [u c rows]. unfold removeSelector, addSelector in *.
  simpl in *. by rewrite Hsel.
Qed.

End form.

(** ** More on the export buttons *)

Section export_counts.
Import Js ExportButtons.
Local Open Scope list_scope.
Implicit Types (s : state) (f : format) (es : list event).

Lemma step_accounting jobId s e s' :
  step jobId s e = Some s' →
  length (requests s') + length (toasts s') =
    length (requests s) + length (toasts s) + (if is_click e then 1 else 0) ∧
  length (downloads s') =
    length (downloads s) + (if is_success e then 1 else 0).
Proof.
  destruct e as [f|k ok]; simpl; intros Hstep; simplify_option_eq.
  - rewrite length_app. simpl. lia.
  - destruct H as [j f]. simplify_eq. simpl.
    rewrite length_app, length_delete by by eexists. simpl.
    apply lookup_lt_Some in Heqo.
    destruct ok; rewrite ?length_app; simpl; lia.
Qed.

(** X13.  Over any run of the buttons, every accepted click is accounted
    for once: it is a request still in flight or it has shown exactly one
    notification; and the files handed to the browser are as many as the
    requests that succeeded. *)
Theorem export_accounting jobId s es s' :
  run jobId s es = Some s' →
  length (requests s') + length (toasts s') =
    length (requests s) + length (toasts s) + length (filter is_click es) ∧
  length (downloads s') =
    length (downloads s) + length (filter is_success es).
Proof.
  revert s. induction es as [|e es IH]; intros s Hrun; simpl in Hrun.
  - simplify_eq. simpl. lia.
  - destruct (step jobId s e) as [s1|] eqn:Hstep; [|done]. simpl in Hrun.
    destruct (IH _ Hrun) as [Hreq Hdown].
    destruct (step_accounting _ _ _ _ Hstep) as [Hreq1 Hdown1].
    rewrite !filter_cons.
    destruct (is_click e), (is_success e); simpl; lia.
Qed.

Lemma export_accounting_witness :
  let es := [Click csv; Click pdf; Resolved 0 true; Click csv;
             Resolved 0 false] in
  ∃ s', run 7 init es = Some s' ∧
        length (requests s') + length (toasts s') = 3 ∧
        length (downloads s') = 1.
Proof.
  intros es. eexists.
  assert (Hrun : run 7 init es = Some
    {| exporting := None; requests := [(7%Z, csv)];
       downloads := ["scraped_data.csv"];
       toasts := [toast_success (JStr "Data exported as CSV");
                  toast_error (JStr "Failed to export as PDF")] |})
    by reflexivity.
  split; [exact Hrun|].
  exact (export_accounting 7 init es _ Hrun).
Defined.

End export_counts.

(** ** More on the dashboard *)

Section dashboard_more.
Import Js ScrapingForm Dashboard.
Local Open Scope list_scope.
Implicit Types (s : state) (j : job) (h : nat) (es : list event).

(** *** One submission at a time *)

Lemma step_submitting s e s' :
  submitting s → step s e = Some s' → submitting s'.
Proof.
  intros Hs Hstep.
  destruct e; simpl in Hstep; simplify_option_eq.
  - destruct Hs as [[_ Hnone]|[? _]]; [|congruence].
    destruct (handleSubmit f); unfold submitting; simpl; [by left|].
    right. rewrite Hnone. done.
  - unfold submitting. left. destruct Hs as [[_ Hnone]|[_ Hone]].
    + by rewrite Hnone in Heqo.
    + assert (creating s = [H]) as Hc.
      { destruct (creating s) as [|d [|d' l]]; simplify_eq/=.
        destruct k; by simplify_eq/=. }
      rewrite Hc in Heqo |- *. destruct k; [|done].
      destruct r; done.
  - destruct (callback_of H); exact Hs.
  - destruct H as [x jobId]. simplify_eq. unfold poll_response.
    repeat case_match; exact Hs.
  - exact Hs.
  - exact Hs.
  - exact Hs.
  - destruct H as [jobId cur]. simplify_eq. unfold deleteJob_response.
    repeat case_match; exact Hs.
Qed.

(** X14.  In every state that the dashboard reaches, at most one
    job-creation request is outstanding, and the form is disabled exactly
    while there is one: a second submission cannot be made before the first
    has settled. *)
Theorem one_submission_at_a_time es s :
  run init es = Some s →
  (length (creating s) ≤ 1)%nat ∧ (loading s = true ↔ creating s ≠ []) ∧
  ∀ f, creating s ≠ [] → step s (Submit f) = None.
Proof.
  intros Hrun.
  assert (Hs : submitting s).
  { assert (Hinit : submitting init) by (by left).
    revert Hinit Hrun. generalize init. clear.
    induction es as [|e es IH]; intros s0 Hs0 Hrun; simpl in Hrun.
    - by simplify_eq.
    - destruct (step s0 e) as [s1|] eqn:Hstep; [|done].
      apply (IH s1); [by eapply step_submitting | done]. }
  destruct Hs as [[Hload Hnone]|[Hload Hone]].
  - rewrite Hload, Hnone. split_and!; simpl; [lia | split; done | done].
  - rewrite Hload, Hone. split_and!; [lia | |].
    + split; [|done]. intros _ Hnil. by rewrite Hnil in Hone.
    + intros f _. simpl. rewrite Hload. by case_guard.
Qed.

Lemma one_submission_at_a_time_witness :
  let f := {| url := "https://example.com"; use_selenium := true;
              selectors := [ {| field := "title"; selector := "h1" |} ] |} in
  ∃ s, run init [Submit f] = Some s ∧
       length (creating s) = 1 ∧ loading s = true ∧
       step s (Submit f) = None.
Proof.
  intros f. eexists.
  assert (Hrun : run init [Submit f] = Some (handleScrape
            {| sd_url := "https://example.com"; sd_use_selenium := true;
               sd_selectors := [("title", JStr "h1")] |} init))
    by reflexivity.
  destruct (one_submission_at_a_time _ _ Hrun) as (_ & _ & Hblocked).
  split; [exact Hrun|]. split; [reflexivity|]. split; [reflexivity|].
  apply Hblocked. discriminate.
Defined.

(** *** Status responses *)

Lemma poll_response_jobs jobId x r s :
  scrapeJobs (poll_response jobId x r s) =
    match r with
    | Some j => (λ y, if decide (id y = jobId) then j else y) <$> scrapeJobs s
    | None => scrapeJobs s
    end.
Proof. unfold poll_response. by repeat case_match. Qed.

(** X15.  A status response changes the collection only at the jobs that
    have the polled id: the collection keeps its length, every job with
    another id stays where it is, and a job with the polled id is replaced
    by the job of the response. *)
Theorem poll_response_frame s k x jobId r s' :
  fetching s !! k = Some (x, jobId) →
  step s (FetchResolved k r) = Some s' →
  length (scrapeJobs s') = length (scrapeJobs s) ∧
  ∀ i y, scrapeJobs s !! i = Some y →
    scrapeJobs s' !! i =
      Some match r with
           | Some j => if decide (id y = jobId) then j else y
           | None => y
           end.
Proof.
  intros Hreq Hstep. simpl in Hstep. rewrite Hreq in Hstep. simpl in Hstep.
  injection Hstep as <-. rewrite poll_response_jobs. simpl.
  destruct r as [j|]; [|done].
  split; [by rewrite length_fmap|].
  intros i y Hy. by rewrite list_lookup_fmap, Hy.
Qed.

Lemma poll_response_frame_witness :
  let a := {| id := 7; job_url := "https://a.example"; status := "pending";
              result_data := JNull; error_message := "" |} in
  let b := {| id := 8; job_url := "https://b.example"; status := "pending";
              result_data := JNull; error_message := "" |} in
  let a' := {| id := 7; job_url := "https://a.example"; status := "running";
               result_data := JNull; error_message := "" |} in
  let s := set_fetching [(1, 7%Z)] (setScrapeJobs (λ _, [b; a]) init) in
  ∃ s', step s (FetchResolved 0 (Some a')) = Some s' ∧
        scrapeJobs s' !! 0 = Some b ∧ scrapeJobs s' !! 1 = Some a'.
Proof.
  intros a b a' s. eexists.
  assert (Hreq : fetching s !! 0 = Some (1, 7%Z)) by reflexivity.
  assert (Hstep : step s (FetchResolved 0 (Some a')) =
                  Some (poll_response 7 1 (Some a') (set_fetching [] s)))
    by reflexivity.
  destruct (poll_response_frame s 0 1 7 (Some a') _ Hreq Hstep) as [_ Hat].
  split; [exact Hstep|]. split.
  - exact (Hat 0 b eq_refl).
  - exact (Hat 1 a eq_refl).
Defined.

(** X16.  A response for an id that no job of the collection has (a job
    that was deleted while its loop went on) leaves the collection as it
    is: the job does not come back. *)
Theorem poll_response_absent_id s k x jobId r s' :
  Forall (λ y, id y ≠ jobId) (scrapeJobs s) →
  fetching s !! k = Some (x, jobId) →
  step s (FetchResolved k r) = Some s' →
  scrapeJobs s' = scrapeJobs s.
Proof.
  intros Habsent Hreq Hstep. simpl in Hstep. rewrite Hreq in Hstep.
  simpl in Hstep. injection Hstep as <-. rewrite poll_response_jobs. simpl.
  destruct r as [j|]; [|done].
  induction Habsent as [|y l Hy _ IH]; [done|].
  rewrite fmap_cons, IH. by rewrite decide_False.
Qed.

Lemma poll_response_absent_id_witness :
  let b := {| id := 8; job_url := "https://b.example"; status := "pending";
              result_data := JNull; error_message := "" |} in
  let a' := {| id := 7; job_url := "https://a.example"; status := "completed";
               result_data := JNull; error_message := "" |} in
  let s := set_fetching [(1, 7%Z)] (setScrapeJobs (λ _, [b]) init) in
  Forall (λ y, id y ≠ 7%Z) (scrapeJobs s) ∧
  ∃ s', step s (FetchResolved 0 (Some a')) = Some s' ∧ scrapeJobs s' = [b].
Proof.
  intros b a' s.
  assert (Habsent : Forall (λ y, id y ≠ 7%Z) (scrapeJobs s))
    by (repeat constructor; discriminate).
  split; [exact Habsent|]. eexists.
  assert (Hstep : step s (FetchResolved 0 (Some a')) =
                  Some (poll_response 7 1 (Some a') (set_fetching [] s)))
    by reflexivity.
  split; [exact Hstep|].
  exact (poll_response_absent_id s 0 1 7 _ _ Habsent eq_refl Hstep).
Defined.

(** X17.  A response whose status is neither [completed] nor [failed]
    updates the collection and nothing else: the timers, the current job
    and the notifications are as before, so the loop goes on silently. *)
Theorem nonterminal_response_keeps_polling s k x jobId j s' :
  fetching s !! k = Some (x, jobId) →
  status j ≠ "completed" → status j ≠ "failed" →
  step s (FetchResolved k (Some j)) = Some s' →
  timers s' = timers s ∧ currentJob s' = currentJob s ∧
  toasts s' = toasts s ∧ (polling x s → polling x s').
Proof.
  intros Hreq Hc Hf Hstep. simpl in Hstep. rewrite Hreq in Hstep.
  simpl in Hstep. injection Hstep as <-. unfold poll_response.
  apply String.eqb_neq in Hc, Hf. rewrite Hc, Hf. simpl. done.
Qed.

Lemma nonterminal_response_keeps_polling_witness :
  let j := {| id := 7; job_url := "https://a.example"; status := "running";
              result_data := JNull; error_message := "" |} in
  let s := poll_request 7 1 (pollJobStatus 7 init) in
  ∃ s', step s (FetchResolved 0 (Some j)) = Some s' ∧
        polling 1 s' ∧ toasts s' = [].
Proof.
  intros j s. eexists.
  assert (Hstep : step s (FetchResolved 0 (Some j)) =
                  Some (poll_response 7 1 (Some j) (set_fetching [] s)))
    by reflexivity.
  assert (Hc : status j ≠ "completed") by discriminate.
  assert (Hf : status j ≠ "failed") by discriminate.
  destruct (nonterminal_response_keeps_polling s 0 1 7 j _ eq_refl Hc Hf Hstep)
    as (_ & _ & Htoasts & Hpoll).
  split; [exact Hstep|]. split; [apply Hpoll; by eexists | exact Htoasts].
Defined.

(** X26.  A status response touches no timer but the one of its own loop:
    every other entry of the timer table, and the next free handle, are as
    before. *)
Theorem poll_response_other_loops s k x jobId r s' h :
  fetching s !! k = Some (x, jobId) →
  step s (FetchResolved k r) = Some s' → h ≠ x →
  timers s' !! h = timers s !! h ∧ next_handle s' = next_handle s.
Proof.
  intros Hreq Hstep Hh. simpl in Hstep. rewrite Hreq in Hstep.
  simpl in Hstep. injection Hstep as <-. unfold poll_response.
  repeat case_match; simpl; by rewrite ?lookup_delete_ne.
Qed.

Lemma poll_response_other_loops_witness :
  let j := {| id := 7; job_url := "https://a.example"; status := "completed";
              result_data := JNull; error_message := "" |} in
  let s := poll_request 7 1 (pollJobStatus 8 (pollJobStatus 7 init)) in
  let s' := poll_response 7 1 (Some j) (set_fetching [] s) in
  fetching s !! 0 = Some (1, 7%Z) ∧
  step s (FetchResolved 0 (Some j)) = Some s' ∧
  ¬ polling 1 s' ∧ polling 3 s'.
Proof.
  intros j s s'.
  assert (Hreq : fetching s !! 0 = Some (1, 7%Z)) by reflexivity.
  assert (Hstep : step s (FetchResolved 0 (Some j)) = Some s') by reflexivity.
  assert (Hne : 3 ≠ 1) by lia.
  destruct (poll_response_other_loops s 0 1 7 (Some j) s' 3 Hreq Hstep Hne)
    as [Hother _].
  split; [exact Hreq|]. split; [exact Hstep|]. split; [compute_done|].
  unfold polling. rewrite Hother. by eexists.
Defined.

(** *** Deleting a job *)

(** X18.  When the deletion request succeeds, no job with the deleted id is
    left in the collection, the other jobs stay in their order, and the
    timers and the outstanding status requests are untouched: the polling
    loop of the deleted job is not stopped. *)
Theorem delete_removes_job s k jobId cur s' :
  deleting s !! k = Some (jobId, cur) →
  step s (DeleteResolved k true) = Some s' →
  scrapeJobs s' = filter (λ y, id y ≠ jobId) (scrapeJobs s) ∧
  Forall (λ y, id y ≠ jobId) (scrapeJobs s') ∧
  timers s' = timers s ∧ fetching s' = fetching s.
Proof.
  intros Hreq Hstep. simpl in Hstep. rewrite Hreq in Hstep. simpl in Hstep.
  injection Hstep as <-.
  assert (Hgone : Forall (λ y, id y ≠ jobId)
                    (filter (λ y, id y ≠ jobId) (scrapeJobs s))).
  { apply Forall_forall. by intros y [Hy _]%list_elem_of_filter. }
  destruct cur as [c|]; [case_decide|]; simpl; done.
Qed.

Lemma delete_removes_job_witness :
  let a := {| id := 7; job_url := "https://a.example"; status := "pending";
              result_data := JNull; error_message := "" |} in
  let b := {| id := 8; job_url := "https://b.example"; status := "completed";
              result_data := JNull; error_message := "" |} in
  let s := set_deleting [(7%Z, Some a)]
             (pollJobStatus 7 (setCurrentJob (Some a)
                (setScrapeJobs (λ _, [a; b]) init))) in
  ∃ s', step s (DeleteResolved 0 true) = Some s' ∧
        scrapeJobs s' = [b] ∧ currentJob s' = None ∧ polling 1 s'.
Proof.
  intros a b s. eexists.
  assert (Hstep : step s (DeleteResolved 0 true) =
            Some (deleteJob_response 7 (Some a) true (set_deleting [] s)))
    by reflexivity.
  destruct (delete_removes_job s 0 7 (Some a) _ eq_refl Hstep)
    as (Hjobs & _ & Htimers & _).
  split; [exact Hstep|]. split; [exact Hjobs|]. split; [reflexivity|].
  unfold polling. rewrite Htimers. by eexists.
Defined.

(** *** Requests that fail *)

(** X19.  A request that fails, be it the creation of a job, a status
    request or a deletion, leaves the collection and the current job as
    they are and shows exactly one error notification. *)
Theorem failed_request_keeps_jobs s e s' :
  (∃ k detail, e = CreateResolved k (inr detail)) ∨
  (∃ k, e = FetchResolved k None) ∨
  (∃ k, e = DeleteResolved k false) →
  step s e = Some s' →
  scrapeJobs s' = scrapeJobs s ∧ currentJob s' = currentJob s ∧
  ∃ msg, toasts s' = toasts s ++ [toast_error msg].
Proof.
  intros [(k & detail & ->)|[[k ->]|[k ->]]] Hstep;
    simpl in Hstep; simplify_option_eq.
  - split; [done|]. split; [done|]. by eexists.
  - destruct H as [x jobId]. simplify_eq. simpl.
    split; [done|]. split; [done|]. by eexists.
  - destruct H as [jobId cur]. simplify_eq. simpl.
    split; [done|]. split; [done|]. by eexists.
Qed.

Lemma failed_request_keeps_jobs_witness :
  let f := {| url := "https://example.com"; use_selenium := false;
              selectors := [ {| field := "title"; selector := "h1" |} ] |} in
  ∃ s s', run init [Submit f] = Some s ∧
          step s (CreateResolved 0 (inr (JStr "Invalid URL"))) = Some s' ∧
          scrapeJobs s' = [] ∧
          toasts s' = [toast_error (JStr "Invalid URL")] ∧
          loading s' = false.
Proof.
  intros f. eexists _, _.
  split; [reflexivity|].
  assert (Hstep : step (handleScrape {| sd_url := "https://example.com";
                          sd_use_selenium := false;
                          sd_selectors := [("title", JStr "h1")] |} init)
                    (CreateResolved 0 (inr (JStr "Invalid URL"))) =
                  Some (handleScrape_response (inr (JStr "Invalid URL"))
                          (setLoading true init)))
    by reflexivity.
  split; [exact Hstep|].
  destruct (failed_request_keeps_jobs _ _ _
              (or_introl (ex_intro _ 0 (ex_intro _ _ eq_refl))) Hstep)
    as (Hjobs & _ & _).
  split; [exact Hjobs|]. split; reflexivity.
Defined.

(** *** The life of a polling loop *)

Lemma step_next_handle s e s' :
  step s e = Some s' → (next_handle s ≤ next_handle s')%nat.
Proof.
  intros Hstep. destruct e; simpl in Hstep; simplify_option_eq.
  - by destruct (handleSubmit f).
  - destruct r; simpl; lia.
  - by destruct (callback_of H).
  - destruct H as [x jobId]. simplify_eq. unfold poll_response.
    by repeat case_match.
  - done.
  - done.
  - done.
  - destruct H as [jobId cur]. simplify_eq. unfold deleteJob_response.
    by repeat case_match.
Qed.

(** An event other than the run of the timer [h] leaves the entry of [h]
    as it is or removes it. *)
Lemma step_other_lookup s e s' h :
  h < next_handle s → is_fire h e = false → step s e = Some s' →
  timers s' !! h = None ∨ timers s' !! h = timers s !! h.
Proof.
  intros Hh Hfire Hstep.
  destruct e; simpl in Hstep, Hfire;
    try apply bool_decide_eq_false in Hfire; simplify_option_eq.
  - right. by destruct (handleSubmit f).
  - right. destruct r as [j|detail]; simpl; [|done].
    by rewrite !lookup_insert_ne by lia.
  - assert (Htable : match every H with
                     | Some ms => <[h0 := {| due := due H + ms; every := Some ms;
                                             callback_of := callback_of H |}]>
                                    (timers s)
                     | None => delete h0 (timers s)
                     end !! h = timers s !! h).
    { destruct (every H); [by rewrite lookup_insert_ne | by rewrite lookup_delete_ne]. }
    destruct (callback_of H) as [jobId x|x]; simpl; [by right|].
    destruct (decide (x = h)) as [->|Hx].
    + left. apply lookup_delete_eq.
    + right. by rewrite lookup_delete_ne.
  - destruct H as [x jobId]. simplify_eq. unfold poll_response.
    destruct (decide (x = h)) as [->|Hx].
    + repeat case_match; simpl; rewrite ?lookup_delete_eq; auto.
    + right. repeat case_match; simpl; by rewrite ?lookup_delete_ne.
  - by right.
  - by right.
  - by right.
  - right. destruct H as [jobId cur]. simplify_eq. unfold deleteJob_response.
    by repeat case_match.
Qed.

(** The run of the timer [h]: it was due, and it is entered again one
    period later unless it, or its callback, removed it. *)
Lemma step_fire_lookup s h s' :
  step s (Fire h) = Some s' →
  ∃ t, timers s !! h = Some t ∧ due t = now s ∧ now s' = now s ∧
       (timers s' !! h = None ∨
        ∃ ms, every t = Some ms ∧
              timers s' !! h = Some {| due := due t + ms; every := Some ms;
                                       callback_of := callback_of t |}).
Proof.
  intros Hstep. simpl in Hstep. simplify_option_eq. rename H into t.
  exists t. split; [done|]. split; [done|].
  destruct (every t) as [ms|] eqn:Hevery.
  - destruct (callback_of t) as [jobId x|x] eqn:Hcb; simpl.
    + split; [done|]. right. exists ms. by rewrite lookup_insert_eq.
    + split; [done|]. destruct (decide (x = h)) as [->|Hx].
      * left. apply lookup_delete_eq.
      * right. exists ms. rewrite lookup_delete_ne by done.
        by rewrite lookup_insert_eq.
  - split; [by destruct (callback_of t)|]. left.
    destruct (callback_of t) as [jobId x|x]; simpl.
    + apply lookup_delete_eq.
    + destruct (decide (x = h)) as [->|Hx]; [apply lookup_delete_eq|].
      rewrite lookup_delete_ne by done. apply lookup_delete_eq.
Qed.

(** A handle that has left the table does not come back. *)
Lemma run_stopped s es s' h :
  h < next_handle s → timers s !! h = None → run s es = Some s' →
  timers s' !! h = None.
Proof.
  revert s. induction es as [|e es IH]; intros s Hh Hnone Hrun; simpl in Hrun.
  - by simplify_eq.
  - destruct (step s e) as [s1|] eqn:Hstep; [|done]. simpl in Hrun.
    apply (IH s1); [| |done].
    + pose proof (step_next_handle _ _ _ Hstep). lia.
    + destruct (is_fire h e) eqn:Hfire.
      * destruct e; try done. apply bool_decide_eq_true in Hfire as ->.
        apply step_fire_lookup in Hstep as (t & Ht & _). congruence.
      * destruct (step_other_lookup _ _ _ _ Hh Hfire Hstep) as [?|Heq];
          [done | congruence].
Qed.

(** X20.  A status response that is [completed] or [failed], or a status
    request that fails, ends the loop for good: the loop is out of the
    timer table then and after any further events. *)
Theorem terminal_response_stops_loop s k x jobId r s1 es s' :
  wf s → fetching s !! k = Some (x, jobId) →
  match r with
  | Some j => status j = "completed" ∨ status j = "failed"
  | None => True
  end →
  step s (FetchResolved k r) = Some s1 → run s1 es = Some s' →
  ¬ polling x s'.
Proof.
  intros [_ Hfetch] Hreq Hterminal Hstep Hrun.
  assert (Hx : x < next_handle s).
  { exact (Forall_lookup_1 _ _ _ _ Hfetch Hreq). }
  assert (Hstopped : next_handle s1 = next_handle s ∧ timers s1 !! x = None).
  { simpl in Hstep. rewrite Hreq in Hstep. simpl in Hstep.
    injection Hstep as <-. unfold poll_response. destruct r as [j|].
    - destruct Hterminal as [-> | ->]; simpl; by rewrite lookup_delete_eq.
    - simpl. by rewrite lookup_delete_eq. }
  destruct Hstopped as [Hnext Hnone].
  unfold polling. rewrite (run_stopped s1 es s' x); [by intros [? ?] | lia | done | done].
Qed.

Lemma terminal_response_stops_loop_witness :
  let j := {| id := 7; job_url := "https://a.example"; status := "failed";
              result_data := JNull; error_message := "timeout" |} in
  let s := poll_request 7 1 (set_now 2000 (pollJobStatus 7 init)) in
  let s1 := poll_response 7 1 (Some j) (set_fetching [] s) in
  let es := [Elapse 298000; Fire 2; Elapse 1000] in
  let s' := default s1 (run s1 es) in
  wf s ∧ polling 1 s ∧
  step s (FetchResolved 0 (Some j)) = Some s1 ∧
  run s1 es = Some s' ∧
  ¬ polling 1 s'.
Proof.
  intros j s s1 es s'.
  assert (Hwf : wf s) by compute_done.
  assert (Hloop : polling 1 s) by compute_done.
  assert (Hstep : step s (FetchResolved 0 (Some j)) = Some s1) by reflexivity.
  assert (Hrun : run s1 es = Some s') by (vm_compute; reflexivity).
  assert (Hterminal : status j = "completed" ∨ status j = "failed")
    by (by right).
  split; [exact Hwf|]. split; [exact Hloop|]. split; [exact Hstep|].
  split; [exact Hrun|].
  exact (terminal_response_stops_loop s 0 1 7 (Some j) s1 es s'
           Hwf eq_refl Hterminal Hstep Hrun).
Defined.

Lemma pollJobStatus_scheduled jobId s :
  wf s → scheduled jobId (next_handle s) (now s) 0 (pollJobStatus jobId s).
Proof.
  intros Hwf. split_and!; [by apply pollJobStatus_guarded | lia |].
  right. rewrite pollJobStatus_timers.
  rewrite lookup_insert_ne by lia. rewrite lookup_insert_eq.
  reflexivity.
Qed.

Lemma step_scheduled jobId h t0 n s e s' :
  scheduled jobId h t0 n s → step s e = Some s' →
  scheduled jobId h t0 (n + if is_fire h e then 1 else 0) s' ∧
  (is_fire h e = true → now s = (t0 + 2000 * (Z.of_nat n + 1))%Z).
Proof.
  intros (Hg & Hn & Hentry) Hstep.
  pose proof (step_guarded _ _ _ _ _ Hg Hstep) as Hg'.
  assert (Hh : h < next_handle s) by (destruct Hg as [? _]; lia).
  destruct (is_fire h e) eqn:Hfire.
  - destruct e; try done. apply bool_decide_eq_true in Hfire as ->.
    apply step_fire_lookup in Hstep as (t & Ht & Hdue & _ & Hafter).
    destruct Hentry as [Hnone | Hentry]; [congruence|].
    assert (t = tick_timer jobId h t0 n) as -> by congruence.
    simpl in Hdue.
    assert (Hclock : (now s ≤ t0 + 300000)%Z).
    { destruct Hg as (_ & _ & _ & [[_ ?]|[_ Hnone]]); [done | congruence]. }
    split; [|by intros _]. split_and!; [done | lia |].
    destruct Hafter as [Hnone | (ms & Hms & Hafter)]; [by left|].
    right. rewrite Hafter. simpl in Hms. injection Hms as <-.
    unfold tick_timer. simpl. do 2 f_equal. lia.
  - split; [|done]. rewrite Nat.add_0_r. split_and!; [done | done |].
    destruct (step_other_lookup _ _ _ _ Hh Hfire Hstep) as [Hnone | Hsame];
      [by left|].
    by rewrite Hsame.
Qed.

Lemma ticks_cons h e es :
  ticks h (e :: es) = (if is_fire h e then 1 else 0) + ticks h es.
Proof. unfold ticks. rewrite filter_cons. by destruct (is_fire h e). Qed.

Lemma ticks_app h es1 es2 : ticks h (es1 ++ es2) = ticks h es1 + ticks h es2.
Proof. unfold ticks. by rewrite filter_app, length_app. Qed.

Lemma run_scheduled jobId h t0 n s es s' :
  scheduled jobId h t0 n s → run s es = Some s' →
  scheduled jobId h t0 (n + ticks h es) s'.
Proof.
  revert n s. induction es as [|e es IH]; intros n s Hs Hrun; simpl in Hrun.
  - simplify_eq. unfold ticks. simpl. by rewrite Nat.add_0_r.
  - destruct (step s e) as [s1|] eqn:Hstep; [|done]. simpl in Hrun.
    destruct (step_scheduled _ _ _ _ _ _ _ Hs Hstep) as [Hs1 _].
    rewrite ticks_cons, Nat.add_assoc. by apply (IH _ s1).
Qed.

(** X21.  A polling loop requests the status at most 150 times, whatever
    the responses are. *)
Theorem loop_ticks_bounded s jobId es s' :
  wf s → run (pollJobStatus jobId s) es = Some s' →
  (ticks (next_handle s) es ≤ 150)%nat.
Proof.
  intros Hwf Hrun.
  pose proof (run_scheduled _ _ _ _ _ _ _
                (pollJobStatus_scheduled jobId s Hwf) Hrun) as (_ & Hn & _).
  exact Hn.
Qed.

Lemma loop_ticks_bounded_witness :
  let s' := default init (run (pollJobStatus 7 init) (pending_ticks 150)) in
  wf init ∧
  run (pollJobStatus 7 init) (pending_ticks 150) = Some s' ∧
  ticks 1 (pending_ticks 150) = 150 ∧
  (ticks (next_handle init) (pending_ticks 150) ≤ 150)%nat.
Proof.
  intros s'.
  assert (Hwf : wf init) by compute_done.
  assert (Hrun : run (pollJobStatus 7 init) (pending_ticks 150) = Some s')
    by (vm_compute; reflexivity).
  split; [exact Hwf|]. split; [exact Hrun|]. split; [compute_done|].
  exact (loop_ticks_bounded init 7 _ s' Hwf Hrun).
Defined.

(** X22.  The runs of a polling loop are 2000 ms apart, the first one
    2000 ms after [pollJobStatus]: the run that follows [n] earlier ones
    happens when the clock shows the time of the call plus
    [2000 * (n + 1)]. *)
Theorem loop_ticks_on_schedule s jobId es s' (pre post : list event) :
  wf s → run (pollJobStatus jobId s) es = Some s' →
  es = pre ++ Fire (next_handle s) :: post →
  ∃ s1, run (pollJobStatus jobId s) pre = Some s1 ∧
        now s1 = (now s + 2000 * (Z.of_nat (ticks (next_handle s) pre) + 1))%Z.
Proof.
  intros Hwf Hrun ->. rewrite run_app in Hrun.
  destruct (run (pollJobStatus jobId s) pre) as [s1|] eqn:Hpre; [|done].
  exists s1. split; [done|].
  change ((step s1 (Fire (next_handle s)) ≫= λ s2, run s2 post) = Some s')
    in Hrun.
  destruct (step s1 (Fire (next_handle s))) as [s2|] eqn:Hstep; [|done].
  pose proof (run_scheduled _ _ _ _ _ _ _
                (pollJobStatus_scheduled jobId s Hwf) Hpre) as Hs1.
  destruct (step_scheduled _ _ _ _ _ _ _ Hs1 Hstep) as [_ Hnow].
  rewrite Hnow; [done|]. simpl. by apply bool_decide_eq_true.
Qed.

Lemma loop_ticks_on_schedule_witness :
  let pre := pending_ticks 2 ++ [Elapse 2000] in
  let es := pre ++ Fire 1 :: [FetchResolved 0 None] in
  let s' := default init (run (pollJobStatus 7 init) es) in
  wf init ∧ run (pollJobStatus 7 init) es = Some s' ∧
  ∃ s1, run (pollJobStatus 7 init) pre = Some s1 ∧ now s1 = 6000%Z.
Proof.
  intros pre es s'.
  assert (Hwf : wf init) by compute_done.
  assert (Hrun : run (pollJobStatus 7 init) es = Some s')
    by (vm_compute; reflexivity).
  split; [exact Hwf|]. split; [exact Hrun|].
  destruct (loop_ticks_on_schedule init 7 es s' pre [FetchResolved 0 None]
              Hwf Hrun eq_refl) as (s1 & Hpre & Hnow).
  exists s1. split; [exact Hpre|]. rewrite Hnow. reflexivity.
Defined.

End dashboard_more.

(** ** The history page *)

Section history.
Import History.
Implicit Types (s : state) (es : list event).

Lemma step_page s e s' :
  (1 ≤ page (current s))%Z ∧ per_page (current s) = 10%Z →
  step s e = Some s' →
  (1 ≤ page (current s'))%Z ∧ per_page (current s') = 10%Z.
Proof.
  intros [Hpage Hsize] Hstep.
  destruct e as [r|key value| |]; simpl in Hstep; simplify_option_eq.
  - done.
  - by destruct key.
  - simpl. split; [lia | done].
  - simpl. split; [lia | done].
Qed.

(** X23.  On the history page the page number never drops below 1 and the
    page size stays 10, whatever the user does and whatever listings
    arrive. *)
Theorem history_page_positive es s :
  run init es = Some s →
  (1 ≤ page (current s))%Z ∧ per_page (current s) = 10%Z.
Proof.
  assert (Hinit : (1 ≤ page (current init))%Z ∧ per_page (current init) = 10%Z)
    by done.
  revert Hinit. generalize init.
  induction es as [|e es IH]; intros s0 Hs0 Hrun; simpl in Hrun.
  - by simplify_eq.
  - destruct (step s0 e) as [s1|] eqn:Hstep; [|done].
    apply (IH s1); [by eapply step_page | done].
Qed.

Lemma history_page_positive_witness :
  let es := [HistorySettled (Some {| total := 25; total_pages := 3 |});
             Next; Next; FilterChange days_key "7"; Next; Previous] in
  let s := {| current := {| page := 1; per_page := 10; status_filter := "";
                            days := "7" |};
              jobs := Some {| total := 25; total_pages := 3 |};
              loading := false |} in
  run init es = Some s ∧
  (1 ≤ page (current s))%Z ∧ per_page (current s) = 10%Z ∧
  step s Previous = None.
Proof.
  intros es s.
  assert (Hrun : run init es = Some s) by reflexivity.
  destruct (history_page_positive es s Hrun) as [Hpage Hsize].
  split; [exact Hrun|]. split; [exact Hpage|]. split; [exact Hsize|].
  reflexivity.
Defined.

(** X24.  When the page is at least 1, the page size is positive and the
    page starts within the results, the range announced above the buttons
    starts no later than it ends, ends within the results, and is no
    longer than a page. *)
Theorem showing_range f l :
  (1 ≤ page f)%Z → (0 < per_page f)%Z →
  ((page f - 1) * per_page f < total l)%Z →
  (showing_from f ≤ showing_to f l)%Z ∧
  (showing_to f l ≤ total l)%Z ∧
  (showing_to f l - showing_from f < per_page f)%Z.
Proof.
  unfold showing_from, showing_to. intros Hpage Hsize Hstart.
  assert (Hprod : ((page f - 1) * per_page f =
                   page f * per_page f - per_page f)%Z) by ring.
  rewrite Hprod in *. lia.
Qed.

Lemma showing_range_witness :
  let f := {| page := 3; per_page := 10; status_filter := ""; days := "" |} in
  let l := {| total := 25; total_pages := 3 |} in
  (1 ≤ page f)%Z ∧ (0 < per_page f)%Z ∧
  ((page f - 1) * per_page f < total l)%Z ∧
  showing_from f = 21%Z ∧ showing_to f l = 25%Z ∧
  (showing_from f ≤ showing_to f l)%Z ∧
  (showing_to f l ≤ total l)%Z ∧
  (showing_to f l - showing_from f < per_page f)%Z.
Proof.
  intros f l.
  assert (Hpage : (1 ≤ page f)%Z) by (simpl; lia).
  assert (Hsize : (0 < per_page f)%Z) by (simpl; lia).
  assert (Hstart : ((page f - 1) * per_page f < total l)%Z) by (simpl; lia).
  split; [exact Hpage|]. split; [exact Hsize|]. split; [exact Hstart|].
  split; [reflexivity|]. split; [reflexivity|].
  exact (showing_range f l Hpage Hsize Hstart).
Defined.

End history.

(** ** The interceptors *)

Section api.
Import Api.

(** X25.  After a response with the status 401 the stored token is gone:
    the next request gets no credential from the interceptor, and the
    browser is sent to the login page.  Any other failure, with or without
    a response, leaves the browser as it is. *)
Theorem unauthorized_drops_credential b status headers :
  (status = Some 401%Z →
     on_request (on_error status b) headers = headers ∧
     location (on_error status b) = "/login") ∧
  (status ≠ Some 401%Z → on_error status b = b).
Proof.
  unfold on_error. split; intros Hstatus.
  - rewrite decide_True by done. unfold on_request. simpl.
    by rewrite lookup_delete_eq.
  - by rewrite decide_False.
Qed.

End api.
